(** * beep.c: a command-line tone sequencer

    A shallow embedding of [src/beep.c] and the properties of its three
    functions: [play_beep] (the tone emitter), [play_sequence] (the
    sequencer) and [main] (the command-line dispatcher).

    The program only acts on the outside world, so every function is
    embedded as a computation over the trace of the effects performed
    so far.  The trace records the library calls of the source
    ([ioctl], [usleep], [printf], [fflush],
    [AudioServicesPlaySystemSound]) and, as instrumentation, the entry
    into [play_beep] and [play_sequence] with the actual arguments. *)

From Stdlib Require Import ZArith Lia Ascii String.
From stdpp Require Import base list strings.

Local Open Scope Z_scope.

(** ** Machine integers

    [int] is a 32-bit two's complement integer.  Arithmetic that can
    leave the range of [int] is written with its wrap-around. *)

Definition INT_MAX : Z := 2147483647.

Definition wrap_int (z : Z) : Z := (z + 2 ^ 31) mod 2 ^ 32 - 2 ^ 31.

Definition int_mul (a b : Z) : Z := wrap_int (a * b).

Definition int_shl (a n : Z) : Z := wrap_int (Z.shiftl a n).

(** Conversion of an [int] argument to [useconds_t] (32-bit unsigned),
    as performed at each call of [usleep]. *)
Definition to_useconds (z : Z) : Z := z mod 2 ^ 32.

(** ** C strings

    A [string] stands for the characters of a NUL-terminated C string;
    the end of the [string] is the terminator.  A C string holds no NUL
    before its terminator, which [nul_free] expresses. *)

Definition code (c : ascii) : Z := Z.of_nat (nat_of_ascii c).

Fixpoint nul_free (s : string) : bool :=
  match s with
  | EmptyString => true
  | String c r => negb (code c =? 0) && nul_free r
  end.

(** The characters read by [%s]: everything before the first NUL. *)
Fixpoint c_str (s : string) : string :=
  match s with
  | EmptyString => EmptyString
  | String c r => if code c =? 0 then EmptyString else String c (c_str r)
  end.

(** [strcmp]: difference of the first pair of differing characters
    (as [unsigned char]), zero when both strings end together. *)
Fixpoint strcmp (s1 s2 : string) : Z :=
  match s1, s2 with
  | EmptyString, EmptyString => 0
  | EmptyString, String c2 _ => 0 - code c2
  | String c1 _, EmptyString => code c1 - 0
  | String c1 r1, String c2 r2 =>
      if code c1 =? code c2
      then (if code c1 =? 0 then 0 else strcmp r1 r2)
      else code c1 - code c2
  end.

(** The two control characters used by the source: ["\a"] and ["\n"]. *)
Definition bell : string := String (ascii_of_nat 7) EmptyString.
Definition nl : string := String (ascii_of_nat 10) EmptyString.

(** ** Effects *)

(** The three call sites of [usleep]: inside [play_beep] (line 24), the
    rest branch of [play_sequence] (line 43) and the pause between
    notes (line 48). *)
Inductive usleep_site := InBeep | InRest | InPause.

Inductive event :=
| Call_play_sequence (frequencies durations : list Z) (count : Z)
| Call_play_beep (frequency duration_ms : Z)
| SystemSound
| Ioctl_KDMKTONE (arg : Z)
| Usleep (site : usleep_site) (usec : Z)
| Printf (out : string)
| Fflush.

Definition trace := list event.

(** The target of the conditional compilation in [play_beep]. *)
Inductive platform := Apple | Linux | Other.

(** The environment of a run: the platform the program was compiled
    for, and the answer of the console driver to each [KDMKTONE]
    request, which may depend on everything that happened before. *)
Record env := {
  target : platform;
  kd_mktone : trace -> Z -> Z
}.

(** Undefined behaviour that stops the program. *)
Inductive fault := DivisionByZero | OutOfBounds | NullDereference.

Inductive result (A : Type) :=
| Returns (a : A) (t : trace)
| Crashes (f : fault) (t : trace).
Arguments Returns {A} a t.
Arguments Crashes {A} f t.

(** A computation takes the trace so far and extends it. *)
Definition M (A : Type) : Type := trace -> result A.

Definition ret {A} (a : A) : M A := fun t => Returns a t.

Definition bind {A B} (m : M A) (k : A -> M B) : M B :=
  fun t => match m t with
           | Returns a t' => k a t'
           | Crashes f t' => Crashes f t'
           end.

Definition emit (ev : event) : M unit := fun t => Returns tt (t ++ [ev]).

Definition crash {A} (f : fault) : M A := fun t => Crashes f t.

Declare Scope beep_scope.
Delimit Scope beep_scope with beep.
Notation "x <- m ; k" := (bind m (fun x => k))
  (at level 100, m at next level, k at level 200, right associativity,
   format "'[v' x  <-  m ; '/' k ']'") : beep_scope.
Notation "m ;; k" := (bind m (fun _ => k))
  (at level 100, k at level 200, right associativity,
   format "'[v' m  ;; '/' k ']'") : beep_scope.
Local Open Scope beep_scope.

(** *** Library calls *)

Definition usleep (site : usleep_site) (x : Z) : M unit :=
  emit (Usleep site (to_useconds x)).

Definition printf (out : string) : M unit := emit (Printf out).

Definition fflush : M unit := emit Fflush.

Definition ioctl (e : env) (arg : Z) : M Z :=
  fun t => Returns (kd_mktone e t arg) (t ++ [Ioctl_KDMKTONE arg]).

(** [a / b] on [int]: truncating, undefined for a zero divisor. *)
Definition int_div (a b : Z) : M Z :=
  if b =? 0 then crash DivisionByZero else ret (Z.quot a b).

(** [a[i]] for an array of [int]. *)
Definition read (a : list Z) (i : Z) : M Z :=
  if i <? 0 then crash OutOfBounds
  else match a !! Z.to_nat i with
       | Some v => ret v
       | None => crash OutOfBounds
       end.

(** The text [%s] prints for [argv[i]]; [argv[argc]] is a null pointer,
    which the C libraries of the three platforms print as ["(null)"]. *)
Definition fmt_s (arg : option string) : string :=
  match arg with
  | Some s => c_str s
  | None => "(null)"%string
  end.

(** ** The program *)

(** Lines 17-36. *)
Definition play_beep (e : env) (frequency duration_ms : Z) : M unit :=
  emit (Call_play_beep frequency duration_ms) ;;
  match target e with
  | Apple => emit SystemSound
  | Linux =>
      q <- int_div 1193180 frequency ;
      r <- ioctl e (Z.lor (int_shl frequency 16) q) ;
      if r =? 0 then
        (usleep InBeep (int_mul duration_ms 1000) ;;
         _ <- ioctl e 0 ;
         ret tt)
      else
        (printf bell ;; fflush)
  | Other => printf bell ;; fflush
  end.

(** Lines 41-49: the body of the loop for index [i]. *)
Definition play_sequence_body (e : env) (frequencies durations : list Z)
    (count i : Z) : M unit :=
  f <- read frequencies i ;
  (if f =? 0 then
     (d <- read durations i ;
      usleep InRest (int_mul d 1000))
   else
     (f' <- read frequencies i ;
      d <- read durations i ;
      play_beep e f' d)) ;;
  if i <? count - 1 then usleep InPause 50000 else ret tt.

(** Line 40: [for (int i = 0; i < count; i++)].  The recursion is on
    the number [n] of iterations left, [count - i]. *)
Fixpoint play_sequence_loop (e : env) (frequencies durations : list Z)
    (count : Z) (n : nat) (i : Z) : M unit :=
  match n with
  | O => ret tt
  | S n' =>
      play_sequence_body e frequencies durations count i ;;
      play_sequence_loop e frequencies durations count n' (i + 1)
  end.

(** Lines 39-51. *)
Definition play_sequence (e : env) (frequencies durations : list Z)
    (count : Z) : M unit :=
  emit (Call_play_sequence frequencies durations count) ;;
  play_sequence_loop e frequencies durations count (Z.to_nat count) 0.

(** *** The song tables (lines 64-77, 82-93, 98-109) *)

Definition clown_freqs : list Z :=
  [ 523; 523; 523; 523; 523; 523; 523; 523;
    659; 659; 659; 659; 659; 659; 659; 659;
    523; 523; 523; 523; 523; 523; 523; 523;
    440; 440; 440; 440; 440; 440; 440; 440;
    523; 659; 784; 880; 784; 659; 523; 440 ].

Definition clown_durations : list Z :=
  [ 200; 200; 200; 200; 200; 200; 200; 200;
    200; 200; 200; 200; 200; 200; 200; 200;
    200; 200; 200; 200; 200; 200; 200; 200;
    200; 200; 200; 200; 200; 200; 200; 200;
    300; 300; 300; 400; 300; 300; 300; 400 ].

Definition mario_freqs : list Z :=
  [ 659; 659; 0; 659; 0; 523; 659; 0; 784; 0; 0; 0; 392; 0; 0; 0;
    523; 0; 392; 0; 330; 0; 440; 0; 494; 0; 466; 440; 0; 392; 659; 784;
    880; 0; 659; 523; 440; 0; 392; 0; 330; 0; 440; 0; 494; 0; 466; 440;
    392; 0; 659; 523; 440; 0; 392; 0; 330; 0; 440; 0; 494; 0; 466; 440 ].

Definition mario_durations : list Z :=
  [ 200; 200; 100; 200; 100; 200; 200; 100; 200; 100; 100; 100; 200; 100; 100; 100;
    200; 100; 200; 100; 200; 100; 200; 100; 200; 100; 200; 200; 100; 200; 200; 200;
    200; 100; 200; 200; 200; 100; 200; 100; 200; 100; 200; 100; 200; 100; 200; 200;
    200; 100; 200; 200; 200; 100; 200; 100; 200; 100; 200; 100; 200; 100; 200; 200 ].

Definition desperado_freqs : list Z :=
  [ 523; 0; 659; 0; 784; 0; 659; 0; 523; 0; 440; 0; 392; 0; 440; 0;
    523; 0; 659; 0; 784; 0; 880; 0; 784; 0; 659; 0; 523; 0; 440; 0;
    392; 0; 440; 0; 523; 0; 659; 0; 523; 0; 440; 0; 392; 0; 330; 0;
    440; 0; 523; 0; 659; 0; 784; 0; 659; 0; 523; 0; 440; 0; 392; 0 ].

Definition desperado_durations : list Z :=
  [ 400; 100; 400; 100; 400; 100; 400; 100; 400; 100; 400; 100; 400; 100; 400; 100;
    400; 100; 400; 100; 400; 100; 400; 100; 400; 100; 400; 100; 400; 100; 400; 100;
    400; 100; 400; 100; 400; 100; 400; 100; 400; 100; 400; 100; 400; 100; 400; 100;
    400; 100; 400; 100; 400; 100; 400; 100; 400; 100; 400; 100; 400; 100; 400; 100 ].

(** Lines 53-122.  [argc] is the length of [argv]; behind the last
    argument [argv] holds a null pointer. *)
Definition main (e : env) (argv : list string) : M Z :=
  let argc := Z.of_nat (length argv) in
  if argc <? 2 then
    (printf ("Usage: " +:+ fmt_s (argv !! 0%nat) +:+ " <sound_type>" +:+ nl) ;;
     printf ("Sound types: clown, mario, desperado, test" +:+ nl) ;;
     ret 1)
  else
    match argv !! 1%nat with
    | None => crash NullDereference
    | Some sound_type =>
        if strcmp sound_type "clown" =? 0 then
          (play_sequence e clown_freqs clown_durations 40 ;;
           ret 0)
        else if strcmp sound_type "mario" =? 0 then
          (play_sequence e mario_freqs mario_durations 64 ;;
           ret 0)
        else if strcmp sound_type "desperado" =? 0 then
          (play_sequence e desperado_freqs desperado_durations 64 ;;
           ret 0)
        else if strcmp sound_type "test" =? 0 then
          (play_beep e 800 300 ;;
           ret 0)
        else
          (printf ("Unknown sound type: " +:+ c_str sound_type +:+ nl) ;;
           ret 1)
    end.

(** ** Reading a trace *)

(** What the sequencer does, as seen in a trace: a tone (a call of the
    tone emitter), a rest or a pause between two notes. *)
Inductive step :=
| Tone (frequency duration_ms : Z)
| Rest (usec : Z)
| Pause (usec : Z).

Definition seq_view (ev : event) : option step :=
  match ev with
  | Call_play_beep f d => Some (Tone f d)
  | Usleep InRest us => Some (Rest us)
  | Usleep InPause us => Some (Pause us)
  | _ => None
  end.

(** A note event is a tone or a rest. *)
Definition note_view (ev : event) : option step :=
  match seq_view ev with
  | Some (Pause _) => None
  | s => s
  end.

Definition pause_view (ev : event) : option Z :=
  match ev with
  | Usleep InPause us => Some us
  | _ => None
  end.

Definition steps (t : trace) : list step := omap seq_view t.
Definition note_events (t : trace) : list step := omap note_view t.
Definition pauses (t : trace) : list Z := omap pause_view t.

(** The calls of the tone emitter and of the sequencer in a trace. *)
Definition beep_call (ev : event) : option (Z * Z) :=
  match ev with
  | Call_play_beep f d => Some (f, d)
  | _ => None
  end.

Definition sequence_call (ev : event) : option (list Z * list Z * Z) :=
  match ev with
  | Call_play_sequence fs ds n => Some (fs, ds, n)
  | _ => None
  end.

Definition beep_calls (t : trace) : list (Z * Z) := omap beep_call t.
Definition sequence_calls (t : trace) : list (list Z * list Z * Z) :=
  omap sequence_call t.

(** The events [play_beep] performs after its entry. *)
Definition emitter_event (ev : event) : bool :=
  match ev with
  | SystemSound | Ioctl_KDMKTONE _ | Usleep InBeep _ | Printf _ | Fflush => true
  | _ => false
  end.

(** The step a note of the table stands for: frequency 0 is a rest of
    [d] milliseconds, any other frequency a tone. *)
Definition note_step (n : Z * Z) : step :=
  let '(f, d) := n in
  if f =? 0 then Rest (d * 1000) else Tone f d.

Fixpoint intersperse {A} (sep : A) (l : list A) : list A :=
  match l with
  | [] => []
  | [x] => [x]
  | x :: r => x :: sep :: intersperse sep r
  end.

(** Durations whose microsecond count [d * 1000] is computed without
    overflow and converts to [useconds_t] unchanged. *)
Definition duration_ok (d : Z) : Prop := 0 <= d * 1000 <= INT_MAX.

(** Two sample environments: a Linux console that accepts every tone
    request, and one that refuses them all. *)
Definition linux_console : env := {| target := Linux; kd_mktone := fun _ _ => 0 |}.
Definition linux_no_console : env := {| target := Linux; kd_mktone := fun _ _ => -1 |}.

(** The [KDMKTONE] request of line 23. *)
Definition tone_request (f : Z) : Z := Z.lor (int_shl f 16) (Z.quot 1193180 f).

(** The step performed for a note of the table, with the argument of
    [usleep] as the code computes it. *)
Definition raw_step (n : Z * Z) : step :=
  if n.1 =? 0 then Rest (to_useconds (int_mul n.2 1000)) else Tone n.1 n.2.

(** Pauses, as opposed to note events. *)
Definition is_pause (s : step) : bool :=
  match s with Pause _ => true | _ => false end.

(** The sound types listed by the usage text (line 56). *)
Definition sound_types : list string :=
  ["clown"; "mario"; "desperado"; "test"]%string.

(** The call of the tone emitter behind a tone. *)
Definition tone_of (s : step) : option (Z * Z) :=
  match s with Tone f d => Some (f, d) | _ => None end.

(** All the waits of a trace, whatever their call site. *)
Definition wait_view (ev : event) : option Z :=
  match ev with
  | Usleep _ us => Some us
  | _ => None
  end.

Definition waits (t : trace) : list Z := omap wait_view t.

(** The console driver accepts the tone request of [play_beep]. *)
Definition console_tone (e : env) (f d : Z) (t : trace) : bool :=
  match target e with
  | Linux => kd_mktone e (t ++ [Call_play_beep f d]) (tone_request f) =? 0
  | _ => false
  end.

(** ** Further readings of a trace *)

(** The texts written to the standard output. *)
Definition output_view (ev : event) : option string :=
  match ev with
  | Printf s => Some s
  | _ => None
  end.

Definition outputs (t : trace) : list string := omap output_view t.

(** The wait a step of the sequencer stands for; a tone waits only
    where the console plays it ([tones_wait]). *)
Definition wait_of_step (tones_wait : bool) (s : step) : option Z :=
  match s with
  | Tone _ d => if tones_wait then Some (to_useconds (int_mul d 1000)) else None
  | Rest us => Some us
  | Pause us => Some us
  end.

(** The events a platform allows: the system sound belongs to macOS,
    the console requests and the wait between them to Linux, the bell
    and its flush to every platform but macOS. *)
Definition platform_event (p : platform) (ev : event) : Prop :=
  match ev with
  | SystemSound => p = Apple
  | Ioctl_KDMKTONE _ => p = Linux
  | Usleep InBeep _ => p = Linux
  | Printf s => s = bell -> p <> Apple
  | Fflush => p <> Apple
  | _ => True
  end.

(** The events a run of the sequencer over the notes [notes] may
    perform after its entry. *)
Definition note_event (notes : list (Z * Z)) (ev : event) : Prop :=
  match ev with
  | Call_play_sequence _ _ _ => False
  | Call_play_beep f d => f <> 0 /\ (f, d) ∈ notes
  | Usleep InBeep us =>
      exists f d, f <> 0 /\ (f, d) ∈ notes /\ us = to_useconds (int_mul d 1000)
  | Usleep InRest us =>
      exists d, (0, d) ∈ notes /\ us = to_useconds (int_mul d 1000)
  | Usleep InPause us => us = 50000
  | Printf s => s = bell
  | _ => True
  end.

(** The bell is the only way left to make a sound: the platform has no
    tone support, or the Linux console refuses every tone request. *)
Definition bell_only (e : env) : Prop :=
  match target e with
  | Apple => False
  | Linux => forall t arg, kd_mktone e t arg <> 0
  | Other => True
  end.

(** All the notes the program can play: the three tables and the tone
    of the "test" branch. *)
Definition program_notes : list (Z * Z) :=
  zip clown_freqs clown_durations ++
  zip mario_freqs mario_durations ++
  zip desperado_freqs desperado_durations ++
  [(800, 300)].

(** * Lemmas *)

(** ** Wrap-around and strings *)

Lemma usleep_arg_ok (d : Z) :
  duration_ok d -> to_useconds (int_mul d 1000) = d * 1000.
Proof.
  unfold duration_ok, INT_MAX, to_useconds, int_mul, wrap_int. intros Hd.
  rewrite (Z.mod_small (d * 1000 + 2 ^ 31)) by lia.
  rewrite Z.mod_small by lia. lia.
Qed.

Lemma strcmp_refl (s : string) : strcmp s s = 0.
Proof.
  induction s as [|c r IH]; simpl; [reflexivity|].
  rewrite Z.eqb_refl. destruct (code c =? 0); auto.
Qed.

Lemma code_inj (c1 c2 : ascii) : code c1 = code c2 -> c1 = c2.
Proof.
  unfold code. intros H. apply Nat2Z.inj in H.
  rewrite <- (ascii_nat_embedding c1), <- (ascii_nat_embedding c2).
  now rewrite H.
Qed.

Lemma strcmp_0_eq (s1 s2 : string) :
  nul_free s1 = true -> nul_free s2 = true -> strcmp s1 s2 = 0 -> s1 = s2.
Proof.
  revert s2. induction s1 as [|c1 r1 IH]; intros [|c2 r2]; simpl; auto.
  - intros _ H2 H. apply andb_prop in H2 as [H2 _].
    apply negb_true_iff, Z.eqb_neq in H2. lia.
  - intros H1 _ H. apply andb_prop in H1 as [H1 _].
    apply negb_true_iff, Z.eqb_neq in H1. lia.
  - intros H1 H2. apply andb_prop in H1 as [H1 H1'].
    apply andb_prop in H2 as [H2 H2'].
    apply negb_true_iff in H1. rewrite H1.
    destruct (code c1 =? code c2) eqn:E.
    + intros H. apply Z.eqb_eq, code_inj in E. subst c2.
      f_equal. now apply IH.
    + apply Z.eqb_neq in E. lia.
Qed.

Lemma strcmp_eqb (s1 s2 : string) :
  nul_free s1 = true -> nul_free s2 = true ->
  (strcmp s1 s2 =? 0) = bool_decide (s1 = s2).
Proof.
  intros H1 H2. case_bool_decide as E.
  - subst. rewrite strcmp_refl. reflexivity.
  - apply Z.eqb_neq. intros H. apply E. now apply strcmp_0_eq.
Qed.

Lemma c_str_nul_free (s : string) : nul_free s = true -> c_str s = s.
Proof.
  induction s as [|c r IH]; simpl; [reflexivity|].
  intros H. apply andb_prop in H as [H1 H2].
  apply negb_true_iff in H1. rewrite H1. now rewrite IH.
Qed.

(** ** The tone emitter *)

Lemma play_beep_trace (e : env) (f d : Z) (t : trace) :
  (target e = Linux -> f <> 0) ->
  play_beep e f d t =
  Returns tt
    ((t ++ [Call_play_beep f d]) ++
     match target e with
     | Apple => [SystemSound]
     | Linux =>
         if kd_mktone e (t ++ [Call_play_beep f d]) (tone_request f) =? 0
         then [Ioctl_KDMKTONE (tone_request f);
               Usleep InBeep (to_useconds (int_mul d 1000));
               Ioctl_KDMKTONE 0]
         else [Ioctl_KDMKTONE (tone_request f); Printf bell; Fflush]
     | Other => [Printf bell; Fflush]
     end).
Proof.
  intros Hf.
  unfold play_beep, bind, emit, int_div, ioctl, usleep, printf, fflush, emit, ret.
  destruct (target e); [reflexivity | | now rewrite <- !app_assoc].
  specialize (Hf eq_refl). apply Z.eqb_neq in Hf.
  rewrite Hf. fold (tone_request f).
  destruct (kd_mktone e (t ++ [Call_play_beep f d]) (tone_request f) =? 0);
    now rewrite <- !app_assoc.
Qed.

Lemma play_beep_returns (e : env) (f d : Z) (t : trace) :
  f <> 0 ->
  exists body,
    play_beep e f d t = Returns tt (t ++ Call_play_beep f d :: body) /\
    forallb emitter_event body = true.
Proof.
  intros Hf. rewrite (play_beep_trace e f d t (fun _ => Hf)), <- app_assoc. simpl.
  eexists; split; [reflexivity|].
  destruct (target e); [reflexivity | | reflexivity].
  now destruct (_ =? 0).
Qed.

Lemma emitter_event_views (body : trace) :
  forallb emitter_event body = true ->
  steps body = [] /\ beep_calls body = [] /\ sequence_calls body = [].
Proof.
  induction body as [|ev body IH]; simpl; [auto|].
  intros H. apply andb_prop in H as [Hev H]. destruct (IH H) as (IH1 & IH2 & IH3).
  unfold steps, beep_calls, sequence_calls in *. simpl.
  rewrite IH1, IH2, IH3.
  destruct ev as [| | | |[]| |]; simpl in *; auto; discriminate.
Qed.

(** ** The sequencer *)

Lemma raw_step_ok (n : Z * Z) : duration_ok n.2 -> raw_step n = note_step n.
Proof.
  destruct n as [f d]. unfold raw_step, note_step. simpl. intros H.
  now rewrite usleep_arg_ok.
Qed.

Lemma read_in_bounds (a : list Z) (i : nat) (v : Z) (t : trace) :
  a !! i = Some v -> read a (Z.of_nat i) t = Returns v t.
Proof.
  intros H. unfold read.
  destruct (Z.ltb_spec (Z.of_nat i) 0) as [Hlt|_]; [lia|].
  now rewrite Nat2Z.id, H.
Qed.

Section Loop.

Variable e : env.
Variables fs ds : list Z.
Variable count : Z.

(** One iteration, for an index inside both arrays. *)
Lemma play_sequence_body_trace (i : nat) (f d : Z) (t : trace) :
  fs !! i = Some f -> ds !! i = Some d ->
  exists body,
    play_sequence_body e fs ds count (Z.of_nat i) t = Returns tt (t ++ body) /\
    steps body =
      raw_step (f, d) ::
      (if Z.of_nat i <? count - 1 then [Pause 50000] else []) /\
    beep_calls body = (if f =? 0 then [] else [(f, d)]) /\
    sequence_calls body = [].
Proof.
  intros Hf Hd. unfold play_sequence_body, bind.
  rewrite (read_in_bounds fs i f t Hf). unfold raw_step. simpl.
  destruct (Z.eqb_spec f 0) as [E|E].
  - rewrite (read_in_bounds ds i d t Hd). unfold usleep, emit, ret.
    destruct (Z.of_nat i <? count - 1).
    + exists [Usleep InRest (to_useconds (int_mul d 1000)); Usleep InPause 50000].
      now rewrite <- app_assoc.
    + now exists [Usleep InRest (to_useconds (int_mul d 1000))].
  - rewrite (read_in_bounds fs i f t Hf), (read_in_bounds ds i d t Hd).
    destruct (play_beep_returns e f d t E) as (body & -> & Hbody).
    destruct (emitter_event_views body Hbody) as (V1 & V2 & V3).
    unfold steps, beep_calls, sequence_calls in *.
    unfold usleep, emit, ret.
    destruct (Z.of_nat i <? count - 1).
    + exists ([Call_play_beep f d] ++ body ++ [Usleep InPause 50000]).
      split; [now rewrite <- app_assoc|].
      now rewrite !omap_app, V1, V2, V3.
    + exists ([Call_play_beep f d] ++ body).
      split; [reflexivity|].
      now rewrite !omap_app, V1, V2, V3.
Qed.

(** The last [n] iterations, from index [i] on. *)
Lemma play_sequence_loop_trace (n : nat) :
  forall (i : nat) (t : trace),
    count = Z.of_nat (i + n) ->
    (i + n <= length fs)%nat -> (i + n <= length ds)%nat ->
    exists body,
      play_sequence_loop e fs ds count n (Z.of_nat i) t = Returns tt (t ++ body) /\
      steps body =
        intersperse (Pause 50000) (map raw_step (take n (drop i (zip fs ds)))) /\
      Forall (fun c => c.1 <> 0) (beep_calls body) /\
      sequence_calls body = [].
Proof.
  induction n as [|n IH]; intros i t Hc Hfs Hds.
  - exists []. simpl. rewrite app_nil_r. auto.
  - destruct (lookup_lt_is_Some_2 fs i) as [f Hf]; [lia|].
    destruct (lookup_lt_is_Some_2 ds i) as [d Hd]; [lia|].
    assert (Hz : zip fs ds !! i = Some (f, d)).
    { rewrite lookup_zip_with, Hf, Hd. reflexivity. }
    simpl play_sequence_loop. unfold bind.
    destruct (play_sequence_body_trace i f d t Hf Hd)
      as (b1 & -> & S1 & B1 & Q1).
    replace (Z.of_nat i + 1) with (Z.of_nat (S i)) by lia.
    destruct (IH (S i) (t ++ b1)) as (b2 & -> & S2 & B2 & Q2); [lia..|].
    exists (b1 ++ b2). split; [now rewrite app_assoc|].
    unfold steps, beep_calls, sequence_calls in *.
    rewrite !omap_app, S1, S2, B1, Q1, Q2. split; [|split; [|reflexivity]].
    + rewrite (drop_S _ _ _ Hz). cbn [take map].
      destruct n as [|n].
      * destruct (Z.ltb_spec (Z.of_nat i) (count - 1)); [lia|]. reflexivity.
      * destruct (Z.ltb_spec (Z.of_nat i) (count - 1)); [|lia].
        destruct (lookup_lt_is_Some_2 (zip fs ds) (S i)) as [x Hx].
        { rewrite length_zip_with. lia. }
        rewrite (drop_S _ _ _ Hx). reflexivity.
    + apply Forall_app. split; [|exact B2].
      destruct (Z.eqb_spec f 0); [constructor|].
      constructor; [assumption|constructor].
Qed.

End Loop.

Lemma play_sequence_trace (e : env) (fs ds : list Z) (n : nat) (t : trace) :
  (n <= length fs)%nat -> (n <= length ds)%nat ->
  exists body,
    play_sequence e fs ds (Z.of_nat n) t =
      Returns tt (t ++ Call_play_sequence fs ds (Z.of_nat n) :: body) /\
    steps body = intersperse (Pause 50000) (map raw_step (take n (zip fs ds))) /\
    Forall (fun c => c.1 <> 0) (beep_calls body) /\
    sequence_calls body = [].
Proof.
  intros Hfs Hds. unfold play_sequence, bind, emit. rewrite Nat2Z.id.
  destruct (play_sequence_loop_trace e fs ds (Z.of_nat n) n 0
              (t ++ [Call_play_sequence fs ds (Z.of_nat n)]))
    as (body & Hrun & Hsteps & Hcalls & Hseq); [reflexivity|lia|lia|].
  change (Z.of_nat 0) with 0 in Hrun. rewrite Hrun, <- app_assoc.
  exists body. rewrite drop_0 in Hsteps. auto.
Qed.

(** *** Notes and pauses among the steps *)

Lemma note_events_steps (t : trace) :
  note_events t = filter (fun s => is_pause s = false) (steps t).
Proof.
  unfold note_events, steps. induction t as [|ev t IH]; [reflexivity|].
  destruct ev as [| | | |[]| |]; cbn; rewrite ?IH; reflexivity.
Qed.

Lemma pauses_steps (t : trace) :
  pauses t = omap (fun s => match s with Pause us => Some us | _ => None end)
               (steps t).
Proof.
  unfold pauses, steps. induction t as [|ev t IH]; [reflexivity|].
  destruct ev as [| | | |[]| |]; cbn; rewrite ?IH; reflexivity.
Qed.

Lemma raw_step_not_pause (n : Z * Z) : is_pause (raw_step n) = false.
Proof. unfold raw_step. now destruct (n.1 =? 0). Qed.

Lemma intersperse_notes (p : Z) (l : list step) :
  forallb (fun s => negb (is_pause s)) l = true ->
  filter (fun s => is_pause s = false) (intersperse (Pause p) l) = l /\
  omap (fun s => match s with Pause us => Some us | _ => None end)
    (intersperse (Pause p) l) = replicate (length l - 1) p /\
  (forall q, last (intersperse (Pause p) l) <> Some (Pause q)).
Proof.
  induction l as [|x l IH]; [now cbn|].
  intros H. cbn [forallb] in H. apply andb_prop in H as [Hx Hl].
  destruct (IH Hl) as (IH1 & IH2 & IH3). apply negb_true_iff in Hx.
  destruct l as [|y l].
  - cbn [intersperse]. rewrite filter_cons, Hx.
    split; [now case_decide|]. split.
    + destruct x; [reflexivity..|discriminate].
    + intros q [= ->]. discriminate.
  - change (intersperse (Pause p) (x :: y :: l))
      with (x :: Pause p :: intersperse (Pause p) (y :: l)).
    rewrite !filter_cons, Hx. cbn [is_pause].
    repeat case_decide; try congruence. rewrite IH1.
    split; [reflexivity|]. split.
    + cbn [omap list_omap]. change (list_omap _ _ ?f ?l) with (omap f l).
      rewrite IH2. cbn [length]. rewrite !Nat.sub_succ, Nat.sub_0_r.
      destruct x; [reflexivity..|discriminate].
    + intros q. specialize (IH3 q).
      destruct (intersperse (Pause p) (y :: l)) as [|z r] eqn:E; [now destruct l|].
      exact IH3.
Qed.

Lemma song_steps (body : trace) (l : list (Z * Z)) :
  steps body = intersperse (Pause 50000) (map raw_step l) ->
  note_events body = map raw_step l /\
  pauses body = replicate (length l - 1) 50000 /\
  (forall q, last (steps body) <> Some (Pause q)).
Proof.
  intros H. rewrite note_events_steps, pauses_steps, H.
  destruct (intersperse_notes 50000 (map raw_step l)) as (H1 & H2 & H3).
  { clear H. induction l as [|n l IH]; [reflexivity|].
    cbn [map forallb]. rewrite raw_step_not_pause. exact IH. }
  rewrite length_map in H2. auto.
Qed.

(** ** The dispatcher *)

Lemma main_short (e : env) (argv : list string) :
  (length argv < 2)%nat ->
  main e argv [] =
  Returns 1
    [Printf ("Usage: " +:+ fmt_s (argv !! 0%nat) +:+ " <sound_type>" +:+ nl);
     Printf ("Sound types: clown, mario, desperado, test" +:+ nl)].
Proof.
  intros H. unfold main.
  destruct (Z.ltb_spec (Z.of_nat (length argv)) 2); [reflexivity|lia].
Qed.

Lemma main_dispatches (e : env) (argv : list string) :
  (2 <= length argv)%nat ->
  exists sound_type,
    argv !! 1%nat = Some sound_type /\
    main e argv [] =
    (if strcmp sound_type "clown" =? 0 then
       (play_sequence e clown_freqs clown_durations 40 ;; ret 0)
     else if strcmp sound_type "mario" =? 0 then
       (play_sequence e mario_freqs mario_durations 64 ;; ret 0)
     else if strcmp sound_type "desperado" =? 0 then
       (play_sequence e desperado_freqs desperado_durations 64 ;; ret 0)
     else if strcmp sound_type "test" =? 0 then
       (play_beep e 800 300 ;; ret 0)
     else
       (printf ("Unknown sound type: " +:+ c_str sound_type +:+ nl) ;; ret 1)) [].
Proof.
  intros H. destruct (lookup_lt_is_Some_2 argv 1) as [s Hs]; [lia|].
  exists s. split; [exact Hs|]. unfold main. rewrite Hs.
  destruct (Z.ltb_spec (Z.of_nat (length argv)) 2); [lia|reflexivity].
Qed.

Lemma song_branch (e : env) (fs ds : list Z) (n : nat) :
  length fs = n -> length ds = n ->
  exists body,
    (play_sequence e fs ds (Z.of_nat n) ;; ret 0) [] =
      Returns 0 (Call_play_sequence fs ds (Z.of_nat n) :: body) /\
    steps body = intersperse (Pause 50000) (map raw_step (zip fs ds)) /\
    Forall (fun c => c.1 <> 0) (beep_calls body) /\
    sequence_calls body = [].
Proof.
  intros Hfs Hds.
  destruct (play_sequence_trace e fs ds n []) as (body & Hrun & Hsteps & H);
    [lia..|].
  exists body. unfold bind. rewrite Hrun. split; [reflexivity|].
  rewrite firstn_all2 in Hsteps by (rewrite length_zip_with; lia). auto.
Qed.

Lemma test_branch (e : env) :
  exists body,
    (play_beep e 800 300 ;; ret 0) [] = Returns 0 (Call_play_beep 800 300 :: body) /\
    forallb emitter_event body = true.
Proof.
  destruct (play_beep_returns e 800 300 []) as (body & Hrun & Hbody); [lia|].
  exists body. unfold bind. now rewrite Hrun.
Qed.

(** A run of one of the song branches of [main]. *)
Lemma song_run (e : env) (fs ds : list Z) (n : nat) :
  length fs = n -> length ds = n ->
  exists tr,
    (play_sequence e fs ds (Z.of_nat n) ;; ret 0) [] = Returns 0 tr /\
    note_events tr = map raw_step (zip fs ds) /\
    sequence_calls tr = [(fs, ds, Z.of_nat n)] /\
    Forall (fun c => c.1 <> 0) (beep_calls tr).
Proof.
  intros Hfs Hds.
  destruct (song_branch e fs ds n Hfs Hds) as (body & Hrun & Hsteps & Hb & Hseq).
  destruct (song_steps body _ Hsteps) as (Hnotes & _).
  exists (Call_play_sequence fs ds (Z.of_nat n) :: body).
  split; [exact Hrun|]. split; [exact Hnotes|]. split; [|exact Hb].
  unfold sequence_calls in *. cbn [omap list_omap sequence_call].
  change (list_omap _ _ ?f ?l) with (omap f l). now rewrite Hseq.
Qed.

(** A run of the "test" branch of [main]. *)
Lemma test_run (e : env) :
  exists tr,
    (play_beep e 800 300 ;; ret 0) [] = Returns 0 tr /\
    beep_calls tr = [(800, 300)] /\
    steps tr = [Tone 800 300] /\
    note_events tr = [Tone 800 300] /\
    sequence_calls tr = [].
Proof.
  destruct (test_branch e) as (body & Hrun & Hbody).
  destruct (emitter_event_views body Hbody) as (V1 & V2 & V3).
  exists (Call_play_beep 800 300 :: body). split; [exact Hrun|].
  rewrite note_events_steps.
  unfold steps, beep_calls, sequence_calls in *.
  cbn [omap list_omap seq_view beep_call sequence_call].
  change (list_omap _ _ ?f ?l) with (omap f l).
  rewrite V1, V2, V3. auto.
Qed.

(** The three calls of the sequencer that [main] can make. *)
Ltac song_case e fs ds n :=
  let z := eval vm_compute in (Z.of_nat n) in
  destruct (song_run e fs ds n) as (tr & Hrun & Hn & Hq & Hb);
  [reflexivity..|];
  change (Z.of_nat n) with z in Hrun, Hq;
  rewrite Hrun.

(** Every run of the program returns; it calls the tone emitter with
    non-zero frequencies only, and the sequencer with one of the three
    tables only. *)
Lemma main_returns (e : env) (argv : list string) :
  exists code tr,
    main e argv [] = Returns code tr /\
    Forall (fun c => c.1 <> 0) (beep_calls tr) /\
    Forall (fun c => c ∈ [(clown_freqs, clown_durations, 40);
                          (mario_freqs, mario_durations, 64);
                          (desperado_freqs, desperado_durations, 64)])
      (sequence_calls tr).
Proof.
  destruct (Nat.lt_ge_cases (length argv) 2) as [Hlt|Hge].
  - rewrite (main_short e argv Hlt). do 2 eexists. split; [reflexivity|].
    split; constructor.
  - destruct (main_dispatches e argv Hge) as (s & _ & ->).
    destruct (strcmp s "clown" =? 0);
      [|destruct (strcmp s "mario" =? 0);
        [|destruct (strcmp s "desperado" =? 0);
          [|destruct (strcmp s "test" =? 0)]]].
    + song_case e clown_freqs clown_durations 40%nat.
      do 2 eexists. split; [reflexivity|]. split; [eassumption|].
      rewrite Hq. repeat constructor.
    + song_case e mario_freqs mario_durations 64%nat.
      do 2 eexists. split; [reflexivity|]. split; [eassumption|].
      rewrite Hq. repeat constructor.
    + song_case e desperado_freqs desperado_durations 64%nat.
      do 2 eexists. split; [reflexivity|]. split; [eassumption|].
      rewrite Hq. repeat constructor.
    + destruct (test_run e) as (tr & -> & Hb & _ & _ & Hq).
      do 2 eexists. split; [reflexivity|]. rewrite Hb, Hq.
      split; repeat constructor. simpl. lia.
    + do 2 eexists. split; [reflexivity|]. split; constructor.
Qed.

(** The calls of the tone emitter are the tones among the note events. *)
Lemma beep_calls_notes (t : trace) :
  beep_calls t = omap tone_of (note_events t).
Proof.
  unfold beep_calls, note_events. induction t as [|ev t IH]; [reflexivity|].
  destruct ev as [| | | |[]| |]; cbn; rewrite ?IH; reflexivity.
Qed.

(** ** Sample runs *)

Example run_test_on_console :
  main linux_console ["beep"; "test"]%string [] =
  Returns 0 [Call_play_beep 800 300; Ioctl_KDMKTONE 52430291;
             Usleep InBeep 300000; Ioctl_KDMKTONE 0].
Proof. reflexivity. Qed.

Example run_test_on_macos :
  main {| target := Apple; kd_mktone := fun _ _ => 0 |}
    ["beep"; "test"]%string [] =
  Returns 0 [Call_play_beep 800 300; SystemSound].
Proof. reflexivity. Qed.

Example run_capitalised_name :
  main linux_console ["beep"; "Test"]%string [] =
  Returns 1 [Printf ("Unknown sound type: Test" +:+ nl)].
Proof. reflexivity. Qed.

Example run_two_notes_and_a_rest :
  play_sequence linux_no_console [440; 0; 523] [200; 100; 300] 3 [] =
  Returns tt
    [Call_play_sequence [440; 0; 523] [200; 100; 300] 3;
     Call_play_beep 440 200; Ioctl_KDMKTONE 28838551; Printf bell; Fflush;
     Usleep InPause 50000;
     Usleep InRest 100000;
     Usleep InPause 50000;
     Call_play_beep 523 300; Ioctl_KDMKTONE 34277609; Printf bell; Fflush].
Proof. reflexivity. Qed.

Example emitter_divides_by_frequency :
  play_beep linux_console 0 300 [] = Crashes DivisionByZero [Call_play_beep 0 300].
Proof. reflexivity. Qed.

Example strcmp_stops_at_nul :
  strcmp (String "a" (String (ascii_of_nat 0) "b")) "a" = 0.
Proof. reflexivity. Qed.

(** * Properties of the program *)

(** C1: for every argument given as the sound type, [main] returns 0
    if and only if the argument is exactly one of "clown", "mario",
    "desperado", "test", and then the corresponding song is played (the
    three tables through the sequencer, "test" as one tone); for every
    other argument it prints an error message containing the argument
    and returns 1. *)
Theorem main_exit_code (e : env) (prog arg : string) (rest : list string) :
  nul_free arg = true ->
  exists code tr,
    main e (prog :: arg :: rest) [] = Returns code tr /\
    (code = 0 <-> arg ∈ sound_types) /\
    (arg = "clown"%string ->
       sequence_calls tr = [(clown_freqs, clown_durations, 40)] /\
       note_events tr = map note_step (zip clown_freqs clown_durations)) /\
    (arg = "mario"%string ->
       sequence_calls tr = [(mario_freqs, mario_durations, 64)] /\
       note_events tr = map note_step (zip mario_freqs mario_durations)) /\
    (arg = "desperado"%string ->
       sequence_calls tr = [(desperado_freqs, desperado_durations, 64)] /\
       note_events tr = map note_step (zip desperado_freqs desperado_durations)) /\
    (arg = "test"%string ->
       sequence_calls tr = [] /\ note_events tr = [Tone 800 300]) /\
    (arg ∉ sound_types ->
       code = 1 /\ tr = [Printf ("Unknown sound type: " +:+ arg +:+ nl)]).
Proof.
  intros Hnul.
  destruct (main_dispatches e (prog :: arg :: rest)) as (s & Hs & ->);
    [cbn [length]; lia|].
  injection Hs as <-.
  rewrite !strcmp_eqb by (assumption || reflexivity).
  assert (Hin : forall x : string, x ∈ sound_types <->
            x = "clown"%string \/ x = "mario"%string \/
            x = "desperado"%string \/ x = "test"%string).
  { intros x. unfold sound_types. rewrite !elem_of_cons, elem_of_nil. tauto. }
  repeat case_bool_decide.
  - subst arg.
    song_case e clown_freqs clown_durations 40%nat.
    replace (map raw_step (zip clown_freqs clown_durations))
      with (map note_step (zip clown_freqs clown_durations)) in Hn
      by (vm_compute; reflexivity).
    exists 0, tr. rewrite Hin. repeat split; try discriminate; auto; tauto.
  - subst arg.
    song_case e mario_freqs mario_durations 64%nat.
    replace (map raw_step (zip mario_freqs mario_durations))
      with (map note_step (zip mario_freqs mario_durations)) in Hn
      by (vm_compute; reflexivity).
    exists 0, tr. rewrite Hin. repeat split; try discriminate; auto; tauto.
  - subst arg.
    song_case e desperado_freqs desperado_durations 64%nat.
    replace (map raw_step (zip desperado_freqs desperado_durations))
      with (map note_step (zip desperado_freqs desperado_durations)) in Hn
      by (vm_compute; reflexivity).
    exists 0, tr. rewrite Hin. repeat split; try discriminate; auto; tauto.
  - subst arg. destruct (test_run e) as (tr & -> & _ & _ & Hn & Hq).
    exists 0, tr. rewrite Hin. repeat split; try discriminate; auto; tauto.
  - rewrite (c_str_nul_free arg Hnul).
    exists 1, [Printf ("Unknown sound type: " +:+ arg +:+ nl)].
    rewrite Hin. repeat split; try congruence; try tauto; try discriminate.
Qed.

Lemma main_exit_code_witness :
  nul_free "mario" = true /\
  exists code tr,
    main linux_console ["beep"; "mario"]%string [] = Returns code tr /\
    (code = 0 <-> "mario"%string ∈ sound_types).
Proof.
  split; [reflexivity|].
  destruct (main_exit_code linux_console "beep" "mario" [] eq_refl)
    as (code & tr & Hrun & Hcode & _).
  exists code, tr. split; assumption.
Defined.

(** C2: with an argument list of length less than two, [main] prints
    the usage text and returns 1, and neither the sequencer nor the
    tone emitter is called. *)
Theorem main_usage (e : env) (argv : list string) :
  (length argv < 2)%nat ->
  exists tr,
    main e argv [] = Returns 1 tr /\
    tr = [Printf ("Usage: " +:+ fmt_s (argv !! 0%nat) +:+ " <sound_type>" +:+ nl);
          Printf ("Sound types: clown, mario, desperado, test" +:+ nl)] /\
    sequence_calls tr = [] /\
    beep_calls tr = [].
Proof.
  intros H. rewrite (main_short e argv H). eexists. repeat split.
Qed.

Lemma main_usage_witness :
  (length ["beep"%string] < 2)%nat /\
  exists tr,
    main linux_console ["beep"%string] [] = Returns 1 tr /\
    tr = [Printf ("Usage: beep <sound_type>" +:+ nl);
          Printf ("Sound types: clown, mario, desperado, test" +:+ nl)] /\
    sequence_calls tr = [] /\
    beep_calls tr = [].
Proof.
  split; [cbn; lia|].
  apply (main_usage linux_console ["beep"%string]). cbn; lia.
Defined.

(** C3: with the argument "test", [main] returns 0 and the tone
    emitter is called exactly once, with frequency 800 and duration
    300; there is no other note event and no call of the sequencer. *)
Theorem main_test (e : env) (prog : string) (rest : list string) :
  exists tr,
    main e (prog :: "test"%string :: rest) [] = Returns 0 tr /\
    beep_calls tr = [(800, 300)] /\
    note_events tr = [Tone 800 300] /\
    steps tr = [Tone 800 300] /\
    sequence_calls tr = [].
Proof.
  destruct (main_dispatches e (prog :: "test"%string :: rest)) as (s & Hs & ->);
    [cbn [length]; lia|].
  injection Hs as <-.
  rewrite !strcmp_eqb by reflexivity.
  repeat (case_bool_decide; [discriminate|]).
  case_bool_decide; [|congruence].
  destruct (test_run e) as (tr & -> & Hb & Hst & Hn & Hq).
  exists tr. auto.
Qed.

(** C4: with the argument "clown", [main] returns 0 and produces
    exactly 40 note events, the notes of the clown table in its
    order (all of them tones). *)
Theorem main_clown (e : env) (prog : string) (rest : list string) :
  exists tr,
    main e (prog :: "clown"%string :: rest) [] = Returns 0 tr /\
    length (note_events tr) = 40%nat /\
    note_events tr =
      map (fun n => Tone n.1 n.2) (zip clown_freqs clown_durations).
Proof.
  destruct (main_dispatches e (prog :: "clown"%string :: rest)) as (s & Hs & ->);
    [cbn [length]; lia|].
  injection Hs as <-.
  rewrite !strcmp_eqb by reflexivity.
  case_bool_decide; [|congruence].
  song_case e clown_freqs clown_durations 40%nat.
  exists tr. rewrite Hn. repeat split; vm_compute; reflexivity.
Qed.

(** C5, as stated, fails for a rest whose duration in microseconds
    does not fit an [int]: the product [durations[i] * 1000] wraps
    around, and a rest of 5000000 milliseconds sleeps 705032704
    microseconds. *)
Lemma sequencer_long_rest_wraps :
  play_sequence linux_no_console [0] [5000000] 1 [] =
    Returns tt [Call_play_sequence [0] [5000000] 1; Usleep InRest 705032704] /\
  note_events [Call_play_sequence [0] [5000000] 1; Usleep InRest 705032704] =
    [Rest 705032704] /\
  705032704 <> 5000000 * 1000.
Proof. split; [reflexivity|]. split; [reflexivity | lia]. Qed.

(** C5, amended: for every song given to the sequencer whose rests
    (the notes of frequency 0) have a duration from 0 to 2147483
    milliseconds, so that [duration * 1000] fits an [int], the note
    events of the run are the notes of the song in order: a note of
    frequency 0 is a sleep of exactly its duration and no call of the
    tone emitter, a note of another frequency is a call of the tone
    emitter with its frequency and duration, whatever that duration. *)
Theorem sequencer_notes (e : env) (fs ds : list Z) (t : trace) :
  length fs = length ds ->
  Forall (fun n => n.1 = 0 -> duration_ok n.2) (zip fs ds) ->
  exists body,
    play_sequence e fs ds (Z.of_nat (length fs)) t = Returns tt (t ++ body) /\
    note_events body = map note_step (zip fs ds) /\
    beep_calls body = omap (fun n => tone_of (note_step n)) (zip fs ds) /\
    (forall (i : nat) (f d : Z),
        fs !! i = Some f -> ds !! i = Some d ->
        note_events body !! i =
          Some (if f =? 0 then Rest (d * 1000) else Tone f d)).
Proof.
  intros Hlen Hds.
  destruct (play_sequence_trace e fs ds (length fs) t)
    as (body & Hrun & Hsteps & _ & _); [lia..|].
  rewrite firstn_all2 in Hsteps by (rewrite length_zip_with; lia).
  exists (Call_play_sequence fs ds (Z.of_nat (length fs)) :: body).
  split; [exact Hrun|].
  destruct (song_steps body _ Hsteps) as (Hnotes & _).
  assert (Hraw : map raw_step (zip fs ds) = map note_step (zip fs ds)).
  { apply map_ext_in. intros [f d] Hin.
    apply list_elem_of_In in Hin.
    rewrite Forall_forall in Hds. specialize (Hds _ Hin). simpl in Hds.
    destruct (Z.eq_dec f 0) as [E|E].
    - apply raw_step_ok. auto.
    - unfold raw_step, note_step. simpl.
      apply Z.eqb_neq in E. now rewrite E. }
  assert (Hn : note_events (Call_play_sequence fs ds (Z.of_nat (length fs)) :: body)
               = map note_step (zip fs ds)).
  { rewrite <- Hraw, <- Hnotes. reflexivity. }
  split; [exact Hn|]. split.
  - rewrite beep_calls_notes, Hn. clear.
    induction (zip fs ds) as [|n l IH]; [reflexivity|].
    cbn. rewrite <- IH. reflexivity.
  - intros i f d Hf Hd. rewrite Hn.
    change (map note_step (zip fs ds)) with (note_step <$> zip fs ds).
    rewrite list_lookup_fmap, lookup_zip_with, Hf, Hd. reflexivity.
Qed.

Lemma sequencer_notes_witness :
  length [440; 0; 523] = length [3000000; 100; 300] /\
  Forall (fun n => n.1 = 0 -> duration_ok n.2)
    (zip [440; 0; 523] [3000000; 100; 300]) /\
  exists body,
    play_sequence linux_no_console [440; 0; 523] [3000000; 100; 300] 3 [] =
      Returns tt body /\
    note_events body = [Tone 440 3000000; Rest 100000; Tone 523 300].
Proof.
  assert (Hlen : length [440; 0; 523] = length [3000000; 100; 300])
    by reflexivity.
  assert (Hds : Forall (fun n => n.1 = 0 -> duration_ok n.2)
                  (zip [440; 0; 523] [3000000; 100; 300]))
    by (repeat (constructor; [simpl; unfold duration_ok, INT_MAX; lia|]);
        constructor).
  split; [exact Hlen|]. split; [exact Hds|].
  destruct (sequencer_notes linux_no_console [440; 0; 523] [3000000; 100; 300] []
              Hlen Hds) as (body & Hrun & Hn & _).
  exists body. split; [exact Hrun | exact Hn].
Defined.

(** C6: in every run of the sequencer over a song of [n] notes, a
    pause of 50 milliseconds stands between every two consecutive
    notes and none after the last one, so that there are exactly
    [n - 1] pauses (none when [n] is 0 or 1). *)
Theorem sequencer_pauses (e : env) (fs ds : list Z) (n : nat) (t : trace) :
  (n <= length fs)%nat ->
  (n <= length ds)%nat ->
  exists body,
    play_sequence e fs ds (Z.of_nat n) t = Returns tt (t ++ body) /\
    length (note_events body) = n /\
    steps body = intersperse (Pause 50000) (note_events body) /\
    pauses body = replicate (n - 1) 50000 /\
    (forall q, last (steps body) <> Some (Pause q)).
Proof.
  intros Hfs Hds.
  destruct (play_sequence_trace e fs ds n t Hfs Hds)
    as (body & Hrun & Hsteps & _ & _).
  exists (Call_play_sequence fs ds (Z.of_nat n) :: body).
  split; [exact Hrun|].
  destruct (song_steps body _ Hsteps) as (Hnotes & Hpauses & Hlast).
  assert (Hlen : length (take n (zip fs ds)) = n).
  { rewrite length_take, length_zip_with. lia. }
  change (note_events (Call_play_sequence fs ds (Z.of_nat n) :: body))
    with (note_events body).
  change (steps (Call_play_sequence fs ds (Z.of_nat n) :: body))
    with (steps body).
  change (pauses (Call_play_sequence fs ds (Z.of_nat n) :: body))
    with (pauses body).
  rewrite Hnotes, Hpauses, length_map, Hlen. auto.
Qed.

Lemma sequencer_pauses_witness :
  (3 <= length [440; 0; 523])%nat /\
  (3 <= length [200; 100; 300])%nat /\
  exists body,
    play_sequence linux_console [440; 0; 523] [200; 100; 300] 3 [] =
      Returns tt body /\
    steps body =
      [Tone 440 200; Pause 50000; Rest 100000; Pause 50000; Tone 523 300] /\
    pauses body = [50000; 50000].
Proof.
  assert (H3 : (3 <= 3)%nat) by lia.
  split; [exact H3|]. split; [exact H3|].
  destruct (sequencer_pauses linux_console [440; 0; 523] [200; 100; 300] 3 []
              H3 H3) as (body & Hrun & _ & Hsteps & Hpauses & _).
  exists body. split; [exact Hrun|]. split; [|exact Hpauses].
  cbn in Hrun. injection Hrun as <-. reflexivity.
Defined.

(** C7, as stated, fails on the bell fallback path: on a Linux console
    that refuses the tone request, a call with frequency 800 and
    duration 300 rings the bell and returns without any wait. *)
Lemma emitter_bell_does_not_wait :
  0 < 800 /\ 0 < 300 /\
  play_beep linux_no_console 800 300 [] =
    Returns tt [Call_play_beep 800 300; Ioctl_KDMKTONE 52430291;
                Printf bell; Fflush] /\
  waits [Call_play_beep 800 300; Ioctl_KDMKTONE 52430291;
         Printf bell; Fflush] = [].
Proof. repeat split; reflexivity. Qed.

(** C7, amended: a call of the tone emitter with a positive frequency
    and a positive duration of at most 2147483 milliseconds (so that its
    microsecond count fits an [int]) returns;
    it waits for the given duration, between the request that starts
    the tone and the one that stops it, exactly when the program runs
    on Linux and the console accepts the tone request.  On the bell
    fallback path and on the other platforms it returns without
    waiting. *)
Theorem emitter_waits_on_console_tone (e : env) (f d : Z) (t : trace) :
  0 < f ->
  0 < d ->
  d * 1000 <= INT_MAX ->
  exists body,
    play_beep e f d t = Returns tt (t ++ Call_play_beep f d :: body) /\
    waits body = (if console_tone e f d t then [d * 1000] else []) /\
    (console_tone e f d t = true ->
     body = [Ioctl_KDMKTONE (tone_request f); Usleep InBeep (d * 1000);
             Ioctl_KDMKTONE 0]).
Proof.
  intros Hf Hd Hmax.
  rewrite (play_beep_trace e f d t) by lia. rewrite <- app_assoc.
  eexists. split; [reflexivity|]. unfold console_tone.
  rewrite usleep_arg_ok by (unfold duration_ok; lia).
  destruct (target e); [split; [reflexivity|discriminate] | |
                        split; [reflexivity|discriminate]].
  destruct (kd_mktone e (t ++ [Call_play_beep f d]) (tone_request f) =? 0);
    split; try reflexivity; discriminate.
Qed.

Lemma emitter_waits_on_console_tone_witness :
  0 < 800 /\ 0 < 300 /\ 300 * 1000 <= INT_MAX /\
  exists body,
    play_beep linux_console 800 300 [] =
      Returns tt (Call_play_beep 800 300 :: body) /\
    waits body = [300000].
Proof.
  assert (Hf : 0 < 800) by lia.
  assert (Hd : 0 < 300) by lia.
  assert (Hmax : 300 * 1000 <= INT_MAX) by (unfold INT_MAX; lia).
  split; [exact Hf|]. split; [exact Hd|]. split; [exact Hmax|].
  destruct (emitter_waits_on_console_tone linux_console 800 300 [] Hf Hd Hmax)
    as (body & Hrun & Hw & _).
  exists body. split; [exact Hrun | exact Hw].
Defined.

(** C8: every call of the tone emitter returns to its caller (on
    Linux, where the tone request divides by the frequency, for a
    non-zero frequency); when the platform has no tone mechanism, or
    when the console refuses the tone request, the call writes the
    bell character to the standard output and flushes it. *)
Theorem emitter_bell_fallback (e : env) (f d : Z) (t : trace) :
  (target e = Linux -> f <> 0) ->
  exists body,
    play_beep e f d t = Returns tt (t ++ Call_play_beep f d :: body) /\
    (target e = Apple -> body = [SystemSound]) /\
    (target e = Other -> body = [Printf bell; Fflush]) /\
    (target e = Linux ->
     kd_mktone e (t ++ [Call_play_beep f d]) (tone_request f) <> 0 ->
     body = [Ioctl_KDMKTONE (tone_request f); Printf bell; Fflush]).
Proof.
  intros Hf. rewrite (play_beep_trace e f d t Hf), <- app_assoc.
  eexists. split; [reflexivity|].
  destruct (target e).
  - split; [reflexivity|]. split; intros; discriminate.
  - do 2 (split; [discriminate|]).
    intros _ Hk. apply Z.eqb_neq in Hk. now rewrite Hk.
  - split; [discriminate|]. split; [reflexivity | intros; discriminate].
Qed.

Lemma emitter_bell_fallback_witness :
  (target linux_no_console = Linux -> 800 <> 0) /\
  exists body,
    play_beep linux_no_console 800 300 [] =
      Returns tt (Call_play_beep 800 300 :: body) /\
    body = [Ioctl_KDMKTONE (tone_request 800); Printf bell; Fflush].
Proof.
  assert (Hf : target linux_no_console = Linux -> 800 <> 0) by (intros _; lia).
  split; [exact Hf|].
  destruct (emitter_bell_fallback linux_no_console 800 300 [] Hf)
    as (body & Hrun & _ & _ & Hbell).
  exists body. split; [exact Hrun|].
  apply Hbell; [reflexivity | cbn; lia].
Defined.

(** C9: in every run of the program the tone emitter is only called
    with a non-zero frequency, and the run returns: the division
    1193180 / frequency of the Linux tone request never has a zero
    divisor. *)
Theorem emitter_frequency_nonzero (e : env) (argv : list string) :
  exists code tr,
    main e argv [] = Returns code tr /\
    Forall (fun c => c.1 <> 0) (beep_calls tr).
Proof.
  destruct (main_returns e argv) as (code & tr & Hrun & Hb & _).
  exists code, tr. split; [exact Hrun | exact Hb].
Qed.

(** C10: in every run of the program, each call of the sequencer
    passes one of the three tables with a count equal to the length of
    both of its arrays (40 for clown, 64 for mario and desperado), and
    the run returns: no array is read out of bounds. *)
Theorem sequencer_count_is_length (e : env) (argv : list string) :
  exists code tr,
    main e argv [] = Returns code tr /\
    Forall (fun c => c ∈ [(clown_freqs, clown_durations, 40);
                          (mario_freqs, mario_durations, 64);
                          (desperado_freqs, desperado_durations, 64)] /\
                     c.2 = Z.of_nat (length c.1.1) /\
                     c.2 = Z.of_nat (length c.1.2))
      (sequence_calls tr).
Proof.
  destruct (main_returns e argv) as (code & tr & Hrun & _ & Hq).
  exists code, tr. split; [exact Hrun|].
  eapply Forall_impl; [exact Hq|].
  intros c Hc. split; [exact Hc|].
  rewrite !elem_of_cons, elem_of_nil in Hc.
  destruct Hc as [-> | [-> | [-> | []]]]; split; reflexivity.
Qed.

(** * Further properties *)

(** ** Properties kept by every iteration of the sequencer *)

Section Iterations.

Variable e : env.
Variables fs ds : list Z.
Variable count : Z.

(** A property [F] of the events of a run that holds of nothing, of
    runs put end to end, of a rest, of a pause and of a call of the
    tone emitter with a note of the song. *)
Variable F : trace -> Prop.
Hypothesis F_nil : F [].
Hypothesis F_app : forall a b, F a -> F b -> F (a ++ b).
Hypothesis F_rest :
  forall (i : nat) d, Z.of_nat i < count ->
    fs !! i = Some 0 -> ds !! i = Some d ->
    F [Usleep InRest (to_useconds (int_mul d 1000))].
Hypothesis F_pause : F [Usleep InPause 50000].
Hypothesis F_beep :
  forall (i : nat) f d t body, Z.of_nat i < count ->
    f <> 0 -> fs !! i = Some f -> ds !! i = Some d ->
    play_beep e f d t = Returns tt (t ++ body) -> F body.

Lemma play_sequence_body_keeps (i : nat) (f d : Z) (t : trace) :
  Z.of_nat i < count ->
  fs !! i = Some f -> ds !! i = Some d ->
  exists body,
    play_sequence_body e fs ds count (Z.of_nat i) t = Returns tt (t ++ body) /\
    F body.
Proof.
  intros Hi Hf Hd. unfold play_sequence_body, bind.
  rewrite (read_in_bounds fs i f t Hf).
  destruct (Z.eqb_spec f 0) as [E|E].
  - subst f. rewrite (read_in_bounds ds i d t Hd). unfold usleep, emit, ret.
    destruct (Z.of_nat i <? count - 1).
    + exists ([Usleep InRest (to_useconds (int_mul d 1000))] ++
              [Usleep InPause 50000]).
      split; [now rewrite <- app_assoc|].
      apply F_app; [eapply F_rest; eassumption | exact F_pause].
    + exists [Usleep InRest (to_useconds (int_mul d 1000))].
      split; [reflexivity|]. eapply F_rest; eassumption.
  - rewrite (read_in_bounds fs i f t Hf), (read_in_bounds ds i d t Hd).
    destruct (play_beep_returns e f d t E) as (body & Hrun & _).
    rewrite Hrun.
    assert (HF : F (Call_play_beep f d :: body))
      by (eapply F_beep; eassumption).
    unfold usleep, emit, ret.
    destruct (Z.of_nat i <? count - 1).
    + exists ((Call_play_beep f d :: body) ++ [Usleep InPause 50000]).
      split; [now rewrite <- app_assoc|].
      apply F_app; [exact HF | exact F_pause].
    + exists (Call_play_beep f d :: body). split; [reflexivity | exact HF].
Qed.

Lemma play_sequence_loop_keeps (n : nat) :
  forall (i : nat) (t : trace),
    count = Z.of_nat (i + n) ->
    (i + n <= length fs)%nat -> (i + n <= length ds)%nat ->
    exists body,
      play_sequence_loop e fs ds count n (Z.of_nat i) t = Returns tt (t ++ body) /\
      F body.
Proof.
  induction n as [|n IH]; intros i t Hc Hfs Hds.
  - exists []. simpl. rewrite app_nil_r. auto.
  - destruct (lookup_lt_is_Some_2 fs i) as [f Hf]; [lia|].
    destruct (lookup_lt_is_Some_2 ds i) as [d Hd]; [lia|].
    simpl play_sequence_loop. unfold bind.
    destruct (play_sequence_body_keeps i f d t) as (b1 & -> & F1);
      [lia | assumption..|].
    replace (Z.of_nat i + 1) with (Z.of_nat (S i)) by lia.
    destruct (IH (S i) (t ++ b1)) as (b2 & -> & F2); [lia..|].
    exists (b1 ++ b2). split; [now rewrite app_assoc|]. now apply F_app.
Qed.

End Iterations.

(** The same for a whole call of the sequencer with a count inside
    both arrays. *)
Lemma play_sequence_keeps (e : env) (fs ds : list Z) (n : nat)
    (F : trace -> Prop) (t : trace) :
  F [] ->
  (forall a b, F a -> F b -> F (a ++ b)) ->
  (forall (i : nat) d, (i < n)%nat -> fs !! i = Some 0 -> ds !! i = Some d ->
     F [Usleep InRest (to_useconds (int_mul d 1000))]) ->
  F [Usleep InPause 50000] ->
  (forall (i : nat) f d t body, (i < n)%nat -> f <> 0 ->
     fs !! i = Some f -> ds !! i = Some d ->
     play_beep e f d t = Returns tt (t ++ body) -> F body) ->
  (n <= length fs)%nat -> (n <= length ds)%nat ->
  exists body,
    play_sequence e fs ds (Z.of_nat n) t =
      Returns tt (t ++ Call_play_sequence fs ds (Z.of_nat n) :: body) /\
    F body.
Proof.
  intros Fnil Fapp Frest Fpause Fbeep Hfs Hds.
  unfold play_sequence, bind, emit. rewrite Nat2Z.id.
  destruct (play_sequence_loop_keeps e fs ds (Z.of_nat n) F Fnil Fapp) with
    (n := n) (i := 0%nat) (t := t ++ [Call_play_sequence fs ds (Z.of_nat n)])
    as (body & Hrun & HF); try assumption; try reflexivity.
  - intros i d Hi. apply Frest. lia.
  - intros i f d t' body Hi. apply Fbeep. lia.
  - change (Z.of_nat 0) with 0 in Hrun. rewrite Hrun, <- app_assoc.
    exists body. auto.
Qed.

(** ** The sequencer and the bounds of its arrays *)

Lemma read_out_of_bounds (a : list Z) (i : nat) (t : trace) :
  (length a <= i)%nat -> read a (Z.of_nat i) t = Crashes OutOfBounds t.
Proof.
  intros H. unfold read.
  destruct (Z.ltb_spec (Z.of_nat i) 0) as [Hlt|_]; [lia|].
  now rewrite Nat2Z.id, (lookup_ge_None_2 a i H).
Qed.

(** The iteration for the first index behind one of the arrays. *)
Lemma play_sequence_body_overruns (e : env) (fs ds : list Z) (count : Z)
    (i : nat) (t : trace) :
  (length fs `min` length ds <= i)%nat ->
  play_sequence_body e fs ds count (Z.of_nat i) t = Crashes OutOfBounds t.
Proof.
  intros H. unfold play_sequence_body, bind.
  destruct (Nat.le_gt_cases (length fs) i) as [Hfs|Hfs].
  - now rewrite (read_out_of_bounds fs i t Hfs).
  - destruct (lookup_lt_is_Some_2 fs i Hfs) as [f Hf].
    assert (Hds : (length ds <= i)%nat) by lia.
    rewrite (read_in_bounds fs i f t Hf).
    destruct (f =? 0).
    + now rewrite (read_out_of_bounds ds i t Hds).
    + now rewrite (read_in_bounds fs i f t Hf), (read_out_of_bounds ds i t Hds).
Qed.

Lemma play_sequence_loop_overruns (e : env) (fs ds : list Z) (count : Z)
    (n : nat) :
  forall (i : nat) (t : trace),
    count = Z.of_nat (i + n) ->
    (i <= length fs `min` length ds)%nat ->
    (length fs `min` length ds < i + n)%nat ->
    exists t',
      play_sequence_loop e fs ds count n (Z.of_nat i) t = Crashes OutOfBounds t'.
Proof.
  induction n as [|n IH]; intros i t Hc Hi Hn; [lia|].
  simpl play_sequence_loop. unfold bind.
  destruct (Nat.eq_dec i (Nat.min (length fs) (length ds))) as [E|E].
  - rewrite play_sequence_body_overruns by lia. eauto.
  - destruct (lookup_lt_is_Some_2 fs i) as [f Hf]; [lia|].
    destruct (lookup_lt_is_Some_2 ds i) as [d Hd]; [lia|].
    destruct (play_sequence_body_trace e fs ds count i f d t Hf Hd)
      as (b & -> & _).
    replace (Z.of_nat i + 1) with (Z.of_nat (S i)) by lia.
    apply IH; lia.
Qed.

(** X1: the sequencer checks no bound itself.  A call returns exactly
    when its count is at most the length of both arrays (a count of
    zero or less included); with a larger count the run ends in a
    read behind the end of an array. *)
Theorem play_sequence_in_bounds (e : env) (fs ds : list Z) (count : Z)
    (t : trace) :
  exists t',
    play_sequence e fs ds count t =
    if count <=? Z.of_nat (length fs `min` length ds)
    then Returns tt t'
    else Crashes OutOfBounds t'.
Proof.
  destruct (Z.leb_spec count (Z.of_nat (length fs `min` length ds))) as [H|H].
  - destruct (Z.le_gt_cases count 0) as [H0|H0].
    + unfold play_sequence, bind, emit.
      replace (Z.to_nat count) with 0%nat by lia. simpl. eauto.
    + destruct (play_sequence_trace e fs ds (Z.to_nat count) t)
        as (body & Hrun & _); [lia..|].
      rewrite Z2Nat.id in Hrun by lia. eauto.
  - unfold play_sequence, bind, emit.
    apply (play_sequence_loop_overruns e fs ds count (Z.to_nat count) 0); lia.
Qed.

(** X2: with a count of zero or less the sequencer does nothing at
    all: no array is read, whatever the arrays hold, and no tone, rest
    or pause is performed. *)
Theorem play_sequence_no_note (e : env) (fs ds : list Z) (count : Z)
    (t : trace) :
  count <= 0 ->
  play_sequence e fs ds count t =
  Returns tt (t ++ [Call_play_sequence fs ds count]).
Proof.
  intros H. unfold play_sequence, bind, emit.
  replace (Z.to_nat count) with 0%nat by lia. reflexivity.
Qed.

Lemma play_sequence_no_note_witness :
  -3 <= 0 /\
  play_sequence linux_console [] [] (-3) [] =
  Returns tt [Call_play_sequence [] [] (-3)].
Proof.
  assert (H : -3 <= 0) by lia.
  split; [exact H|].
  exact (play_sequence_no_note linux_console [] [] (-3) [] H).
Defined.



(** ** The tone emitter *)

(** The events of a call that returns. *)
Lemma play_beep_body (e : env) (f d : Z) (t body : trace) :
  (target e = Linux -> f <> 0) ->
  play_beep e f d t = Returns tt (t ++ body) ->
  body =
  Call_play_beep f d ::
  match target e with
  | Apple => [SystemSound]
  | Linux =>
      if console_tone e f d t
      then [Ioctl_KDMKTONE (tone_request f);
            Usleep InBeep (to_useconds (int_mul d 1000));
            Ioctl_KDMKTONE 0]
      else [Ioctl_KDMKTONE (tone_request f); Printf bell; Fflush]
  | Other => [Printf bell; Fflush]
  end.
Proof.
  intros Hf Hrun. rewrite (play_beep_trace e f d t Hf), <- app_assoc in Hrun.
  injection Hrun as Hrun. apply app_inv_head in Hrun. subst body.
  unfold console_tone. now destruct (target e).
Qed.

(** X4: a call of the tone emitter fails in one case only, frequency 0
    on Linux, where it divides by zero before any request reaches the
    console; every other call returns, frequency 0 on the other
    platforms included. *)
Theorem play_beep_outcome (e : env) (f d : Z) (t : trace) :
  exists body,
    play_beep e f d t =
    match target e, f =? 0 with
    | Linux, true => Crashes DivisionByZero (t ++ [Call_play_beep f d])
    | _, _ => Returns tt (t ++ Call_play_beep f d :: body)
    end.
Proof.
  destruct (Z.eqb_spec f 0) as [E|E].
  - destruct (target e) eqn:Hp.
    + rewrite (play_beep_trace e f d t) by congruence.
      rewrite Hp, <- app_assoc. eauto.
    + exists []. unfold play_beep, bind, emit, int_div, crash.
      rewrite Hp. subst f. reflexivity.
    + rewrite (play_beep_trace e f d t) by congruence.
      rewrite Hp, <- app_assoc. eauto.
  - destruct (play_beep_returns e f d t E) as (body & Hrun & _).
    exists body. rewrite Hrun. now destruct (target e).
Qed.

(** X5: off Linux the tone emitter uses neither its frequency nor its
    duration, nor anything that happened before: every call performs
    the same events after its entry. *)
Theorem play_beep_ignores_note (e : env) :
  target e <> Linux ->
  exists body,
    forall (f d : Z) (t : trace),
      play_beep e f d t = Returns tt (t ++ Call_play_beep f d :: body).
Proof.
  intros Hl.
  exists (match target e with Apple => [SystemSound] | _ => [Printf bell; Fflush] end).
  intros f d t. rewrite (play_beep_trace e f d t) by (intros; contradiction).
  rewrite <- app_assoc. now destruct (target e).
Qed.

Lemma play_beep_ignores_note_witness :
  target {| target := Other; kd_mktone := fun _ _ => 0 |} <> Linux /\
  exists body,
    forall (f d : Z) (t : trace),
      play_beep {| target := Other; kd_mktone := fun _ _ => 0 |} f d t =
      Returns tt (t ++ Call_play_beep f d :: body).
Proof.
  assert (H : target {| target := Other; kd_mktone := fun _ _ => 0 |} <> Linux)
    by discriminate.
  split; [exact H|].
  exact (play_beep_ignores_note {| target := Other; kd_mktone := fun _ _ => 0 |} H).
Defined.

Lemma tone_request_fields (f : Z) :
  19 <= f <= 32767 ->
  tone_request f = f * 65536 + 1193180 / f /\
  Z.shiftr (tone_request f) 16 = f /\
  Z.land (tone_request f) 65535 = 1193180 / f.
Proof.
  intros Hf. unfold tone_request, int_shl, wrap_int.
  rewrite Z.shiftl_mul_pow2 by lia.
  rewrite (Z.mod_small (f * 2 ^ 16 + 2 ^ 31)) by lia.
  replace (f * 2 ^ 16 + 2 ^ 31 - 2 ^ 31) with (f * 2 ^ 16) by lia.
  rewrite Z.quot_div_nonneg by lia.
  assert (Hq : 0 <= 1193180 / f < 2 ^ 16).
  { split; [apply Z.div_pos; lia|].
    apply Z.div_lt_upper_bound; lia. }
  assert (Hlow : Z.land (f * 2 ^ 16) (Z.ones 16) = 0).
  { rewrite Z.land_ones by lia. apply Z.mod_mul. lia. }
  assert (Hhigh : Z.shiftr (1193180 / f) 16 = 0).
  { rewrite Z.shiftr_div_pow2 by lia. apply Z.div_small. lia. }
  split; [|split].
  - rewrite <- Z.shiftl_mul_pow2 by lia.
    rewrite <- Z.lxor_lor, <- Z.add_nocarry_lxor.
    + rewrite Z.shiftl_mul_pow2 by lia. reflexivity.
    + apply Z.bits_inj'. intros k Hk. rewrite Z.land_spec, Z.bits_0.
      destruct (Z.lt_ge_cases k 16).
      * rewrite Z.shiftl_spec_low by lia. reflexivity.
      * rewrite (Z.bits_above_log2 (1193180 / f) k); [apply andb_false_r|lia|].
        destruct (Z.eq_dec (1193180 / f) 0) as [->|Hne]; [simpl; lia|].
        apply Z.lt_le_trans with 16; [|lia].
        apply Z.log2_lt_pow2; lia.
    + apply Z.bits_inj'. intros k Hk. rewrite Z.land_spec, Z.bits_0.
      destruct (Z.lt_ge_cases k 16).
      * rewrite Z.shiftl_spec_low by lia. reflexivity.
      * rewrite (Z.bits_above_log2 (1193180 / f) k); [apply andb_false_r|lia|].
        destruct (Z.eq_dec (1193180 / f) 0) as [->|Hne]; [simpl; lia|].
        apply Z.lt_le_trans with 16; [|lia].
        apply Z.log2_lt_pow2; lia.
  - rewrite Z.shiftr_lor, Hhigh, Z.lor_0_r.
    rewrite Z.shiftr_div_pow2 by lia. apply Z.div_mul. lia.
  - change 65535 with (Z.ones 16).
    rewrite Z.land_lor_distr_l, Hlow, Z.lor_0_l.
    rewrite Z.land_ones by lia. apply Z.mod_small. lia.
Qed.

(** X6: on Linux, for a frequency from 19 to 32767, the request sent
    to the console is [frequency * 65536 + 1193180 / frequency]: the
    frequency fills the upper 16 bits and the clock divisor
    [1193180 / frequency] the lower 16 bits, neither running into the
    other nor out of an [int]. *)
Theorem play_beep_tone_request (e : env) (f d : Z) (t : trace) :
  target e = Linux ->
  19 <= f <= 32767 ->
  exists arg rest,
    play_beep e f d t =
      Returns tt (t ++ Call_play_beep f d :: Ioctl_KDMKTONE arg :: rest) /\
    arg = f * 65536 + 1193180 / f /\
    Z.shiftr arg 16 = f /\
    Z.land arg 65535 = 1193180 / f /\
    0 < arg <= INT_MAX.
Proof.
  intros Hl Hf. destruct (tone_request_fields f Hf) as (Hsum & Hhi & Hlo).
  rewrite (play_beep_trace e f d t) by lia. rewrite Hl, <- app_assoc.
  assert (Hq : 0 <= 1193180 / f < 65536).
  { split; [apply Z.div_pos; lia|]. apply Z.div_lt_upper_bound; lia. }
  exists (tone_request f).
  destruct (kd_mktone e (t ++ [Call_play_beep f d]) (tone_request f) =? 0);
    eexists; (split; [reflexivity|]); repeat split; auto;
    rewrite Hsum; unfold INT_MAX; lia.
Qed.

Lemma play_beep_tone_request_witness :
  target linux_console = Linux /\
  19 <= 440 <= 32767 /\
  exists arg rest,
    play_beep linux_console 440 200 [] =
      Returns tt (Call_play_beep 440 200 :: Ioctl_KDMKTONE arg :: rest) /\
    arg = 440 * 65536 + 1193180 / 440.
Proof.
  assert (Hl : target linux_console = Linux) by reflexivity.
  assert (Hf : 19 <= 440 <= 32767) by lia.
  split; [exact Hl|]. split; [exact Hf|].
  destruct (play_beep_tone_request linux_console 440 200 [] Hl Hf)
    as (arg & rest & Hrun & Harg & _).
  exists arg, rest. split; [exact Hrun | exact Harg].
Defined.

(** ** The events of a run *)

Lemma note_event_mono (notes notes' : list (Z * Z)) (ev : event) :
  notes ⊆ notes' -> note_event notes ev -> note_event notes' ev.
Proof.
  intros Hsub. destruct ev as [| | | |[]| |]; simpl; auto.
  - intros [Hf Hin]. auto.
  - intros (f & d & Hf & Hin & Hus). eauto 6.
  - intros (d & Hin & Hus). eauto.
Qed.

Lemma play_beep_note_events (e : env) (notes : list (Z * Z)) (f d : Z)
    (t body : trace) :
  f <> 0 -> (f, d) ∈ notes ->
  play_beep e f d t = Returns tt (t ++ body) ->
  Forall (note_event notes) body /\ Forall (platform_event (target e)) body.
Proof.
  intros Hf Hin Hrun.
  rewrite (play_beep_body e f d t body (fun _ => Hf) Hrun).
  destruct (target e); [| destruct (console_tone e f d t) |];
    split; repeat constructor; simpl; eauto; discriminate.
Qed.

Lemma play_sequence_events (e : env) (fs ds : list Z) (n : nat) (t : trace) :
  (n <= length fs)%nat -> (n <= length ds)%nat ->
  exists body,
    play_sequence e fs ds (Z.of_nat n) t =
      Returns tt (t ++ Call_play_sequence fs ds (Z.of_nat n) :: body) /\
    Forall (note_event (take n (zip fs ds))) body /\
    Forall (platform_event (target e)) body.
Proof.
  intros Hfs Hds.
  assert (Hin : forall (i : nat) f d, (i < n)%nat ->
            fs !! i = Some f -> ds !! i = Some d ->
            (f, d) ∈ take n (zip fs ds)).
  { intros i f d Hi Hf Hd. apply elem_of_take. exists i. split; [|exact Hi].
    now rewrite lookup_zip_with, Hf, Hd. }
  apply (play_sequence_keeps e fs ds n
           (fun b => Forall (note_event (take n (zip fs ds))) b /\
                     Forall (platform_event (target e)) b));
    try assumption.
  - split; constructor.
  - intros a b [A1 A2] [B1 B2]. split; apply Forall_app; auto.
  - intros i d Hi Hf Hd. split; repeat constructor. simpl. eauto.
  - split; repeat constructor.
  - intros i f d t' body Hi Hf0 Hf Hd. apply play_beep_note_events; eauto.
Qed.

Lemma program_notes_range :
  Forall (fun n => (n.1 = 0 \/ 330 <= n.1 <= 880) /\ 100 <= n.2 <= 400)
    program_notes.
Proof.
  unfold program_notes. cbv [zip_with app clown_freqs clown_durations
    mario_freqs mario_durations desperado_freqs desperado_durations].
  repeat (apply List.Forall_cons; [simpl; lia|]). apply List.Forall_nil.
Qed.

Lemma Forall_omap_view {A} (Q : event -> Prop) (P : A -> Prop)
    (v : event -> option A) (t : trace) :
  (forall ev x, Q ev -> v ev = Some x -> P x) ->
  Forall Q t -> Forall P (omap v t).
Proof.
  intros HQP. induction 1 as [|ev t Hev _ IH]; [constructor|].
  change (omap v (ev :: t)) with
    (match v ev with Some x => x :: omap v t | None => omap v t end).
  destruct (v ev) eqn:E; [constructor; eauto | exact IH].
Qed.

(** A run of [main] that fails prints its message and does nothing else;
    a run that succeeds performs, after the entry into the sequencer,
    events of notes of the program only. *)
Lemma main_run (e : env) (argv : list string) :
  exists code tr,
    main e argv [] = Returns code tr /\
    Forall (platform_event (target e)) tr /\
    ((code = 1 /\
      (((length argv < 2)%nat /\
        tr = [Printf ("Usage: " +:+ fmt_s (argv !! 0%nat) +:+
                      " <sound_type>" +:+ nl);
              Printf ("Sound types: clown, mario, desperado, test" +:+ nl)]) \/
       (exists s, argv !! 1%nat = Some s /\
          tr = [Printf ("Unknown sound type: " +:+ c_str s +:+ nl)]))) \/
     (code = 0 /\ exists pre body,
        tr = pre ++ body /\
        Forall (fun ev => is_Some (sequence_call ev)) pre /\
        Forall (note_event program_notes) body)).
Proof.
  assert (Hsong : forall fs ds (n : nat),
            (n <= length fs)%nat -> (n <= length ds)%nat ->
            zip fs ds ⊆ program_notes ->
            exists tr,
              (play_sequence e fs ds (Z.of_nat n) ;; ret 0) [] = Returns 0 tr /\
              Forall (platform_event (target e)) tr /\
              exists pre body,
                tr = pre ++ body /\
                Forall (fun ev => is_Some (sequence_call ev)) pre /\
                Forall (note_event program_notes) body).
  { intros fs ds n Hfs Hds Hsub.
    destruct (play_sequence_events e fs ds n [] Hfs Hds) as (body & Hrun & Hn & Hp).
    exists (Call_play_sequence fs ds (Z.of_nat n) :: body).
    unfold bind. rewrite Hrun. split; [reflexivity|].
    split; [constructor; [exact I | exact Hp]|].
    exists [Call_play_sequence fs ds (Z.of_nat n)], body.
    split; [reflexivity|]. split; [repeat constructor; simpl; eauto|].
    eapply Forall_impl; [exact Hn|]. intros ev. apply note_event_mono.
    etransitivity; [apply subseteq_take | exact Hsub]. }
  destruct (Nat.lt_ge_cases (length argv) 2) as [Hlt|Hge].
  - rewrite (main_short e argv Hlt). do 2 eexists. split; [reflexivity|].
    split; [repeat constructor; simpl; discriminate|].
    left. split; [reflexivity|]. left. split; [exact Hlt | reflexivity].
  - destruct (main_dispatches e argv Hge) as (s & Hs & ->).
    destruct (strcmp s "clown" =? 0);
      [|destruct (strcmp s "mario" =? 0);
        [|destruct (strcmp s "desperado" =? 0);
          [|destruct (strcmp s "test" =? 0)]]].
    + destruct (Hsong clown_freqs clown_durations 40%nat) as (tr & Hrun & H);
        [cbn; lia.. | intros x Hx; unfold program_notes; rewrite !elem_of_app; auto |].
      exists 0, tr. split; [exact Hrun|]. destruct H. auto.
    + destruct (Hsong mario_freqs mario_durations 64%nat) as (tr & Hrun & H);
        [cbn; lia.. | intros x Hx; unfold program_notes; rewrite !elem_of_app; auto |].
      exists 0, tr. split; [exact Hrun|]. destruct H. auto.
    + destruct (Hsong desperado_freqs desperado_durations 64%nat)
        as (tr & Hrun & H);
        [cbn; lia.. | intros x Hx; unfold program_notes; rewrite !elem_of_app; auto |].
      exists 0, tr. split; [exact Hrun|]. destruct H. auto.
    + destruct (play_beep_returns e 800 300 []) as (body & Hrun & _); [lia|].
      assert (Hin : (800, 300) ∈ program_notes).
      { unfold program_notes. rewrite !elem_of_app. do 3 right. now left. }
      destruct (play_beep_note_events e program_notes 800 300 [] _
                  ltac:(lia) Hin Hrun) as [Hn Hp].
      unfold bind. rewrite Hrun. do 2 eexists. split; [reflexivity|].
      split; [exact Hp|]. right. split; [reflexivity|].
      exists [], (Call_play_beep 800 300 :: body). auto.
    + do 2 eexists. split; [reflexivity|].
      split; [repeat constructor; simpl; discriminate|].
      left. split; [reflexivity|]. right. exists s. auto.
Qed.

Lemma sequence_calls_silent {A} (v : event -> option A) (pre : trace) :
  (forall fs ds n, v (Call_play_sequence fs ds n) = None) ->
  Forall (fun ev => is_Some (sequence_call ev)) pre ->
  omap v pre = [].
Proof.
  intros Hv. induction 1 as [|ev pre Hev _ IH]; [reflexivity|].
  change (omap v (ev :: pre)) with
    (match v ev with Some x => x :: omap v pre | None => omap v pre end).
  destruct ev; try (destruct Hev; discriminate). now rewrite Hv.
Qed.

(** ** The dispatcher *)

(** X7: the program name and the arguments behind the sound type play
    no part: two runs with the same sound type are the same run. *)
Theorem main_ignores_other_arguments (e : env) (prog1 prog2 arg : string)
    (rest1 rest2 : list string) (t : trace) :
  main e (prog1 :: arg :: rest1) t = main e (prog2 :: arg :: rest2) t.
Proof.
  assert (H : forall (p : string) (r : list string),
            (Z.of_nat (length (p :: arg :: r)) <? 2) = false).
  { intros p r. apply Z.ltb_ge. cbn [length]. lia. }
  unfold main. rewrite !H. reflexivity.
Qed.

(** X8: every run returns 0 or 1.  A run that returns 1 performed
    calls of [printf] and nothing else, either the two usage lines
    (fewer than two arguments) or the one line "Unknown sound type:"
    with [argv[1]]: it called neither the sequencer nor the tone
    emitter, waited for nothing and flushed nothing.  A run that
    returns 0 printed no message: every text it wrote to the standard
    output is the lone bell character of the tone emitter. *)
Theorem main_exit_code_and_output (e : env) (argv : list string) :
  exists code tr,
    main e argv [] = Returns code tr /\
    ((code = 1 /\
      (((length argv < 2)%nat /\
        tr = [Printf ("Usage: " +:+ fmt_s (argv !! 0%nat) +:+
                      " <sound_type>" +:+ nl);
              Printf ("Sound types: clown, mario, desperado, test" +:+ nl)]) \/
       (exists s, argv !! 1%nat = Some s /\
          tr = [Printf ("Unknown sound type: " +:+ c_str s +:+ nl)])) /\
      sequence_calls tr = [] /\ beep_calls tr = [] /\ waits tr = []) \/
     (code = 0 /\ Forall (fun s => s = bell) (outputs tr))).
Proof.
  destruct (main_run e argv) as (code & tr & Hrun & _ & H).
  exists code, tr. split; [exact Hrun|].
  destruct H as [(-> & Hmsg) | (-> & pre & body & -> & Hpre & Hbody)].
  - left. split; [reflexivity|]. split; [exact Hmsg|].
    destruct Hmsg as [(_ & ->) | (s & _ & ->)]; repeat split.
  - right. split; [reflexivity|]. unfold outputs. rewrite omap_app.
    rewrite (sequence_calls_silent output_view pre) by auto.
    eapply Forall_omap_view; [|exact Hbody].
    intros [| | | |[]| |] s Hev [=]; subst; exact Hev.
Qed.

(** X9: whatever the arguments and the platform, every wait of a run
    lasts from 50 to 400 milliseconds, and every call of the tone
    emitter has a frequency from 330 to 880 and a duration from 100 to
    400: no wait reaches the second, no duration overflows in its
    conversion to microseconds, and every tone request is within the
    range where its two fields are exact. *)
Theorem main_notes_in_range (e : env) (argv : list string) :
  exists code tr,
    main e argv [] = Returns code tr /\
    Forall (fun us => 50000 <= us <= 400000) (waits tr) /\
    Forall (fun c => 330 <= c.1 <= 880 /\ 100 <= c.2 <= 400) (beep_calls tr).
Proof.
  destruct (main_run e argv) as (code & tr & Hrun & _ & H).
  exists code, tr. split; [exact Hrun|].
  destruct H as [(-> & Hmsg) | (-> & pre & body & -> & Hpre & Hbody)].
  - destruct Hmsg as [(_ & ->) | (s & _ & ->)]; split; constructor.
  - pose proof program_notes_range as Hrange. rewrite Forall_forall in Hrange.
    assert (Hus : forall d, 100 <= d <= 400 ->
              50000 <= to_useconds (int_mul d 1000) <= 400000).
    { intros d Hd. rewrite usleep_arg_ok by (unfold duration_ok, INT_MAX; lia).
      lia. }
    unfold waits, beep_calls. rewrite !omap_app.
    rewrite (sequence_calls_silent wait_view pre),
            (sequence_calls_silent beep_call pre) by auto.
    split.
    + eapply Forall_omap_view; [|exact Hbody].
      intros [| | | |[]| |] us Hev [=]; subst; simpl in Hev.
      * destruct Hev as (f & d & _ & Hin & ->).
        apply Hrange in Hin. apply Hus, Hin.
      * destruct Hev as (d & Hin & ->).
        apply Hrange in Hin. apply Hus, Hin.
      * lia.
    + eapply Forall_omap_view; [|exact Hbody].
      intros [| | | |[]| |] c Hev [=]; subst; simpl in Hev.
      destruct Hev as (Hf & Hin).
      apply Hrange in Hin. simpl in *. lia.
Qed.

(** X10: a run uses the sound mechanism of its own platform and no
    other: the system sound is played on macOS only, and the console
    is asked for a tone (and waited on) on Linux only.  The bell
    fallback of the tone emitter, [printf] of the lone bell character
    and [fflush], is never performed on macOS: no run flushes there,
    and a run that returns 0 writes nothing at all to the standard
    output.  (A run that returns 1 prints its message, which repeats
    [argv[0]] or [argv[1]] as given, on every platform.) *)
Theorem main_platform_events (e : env) (argv : list string) :
  exists code tr,
    main e argv [] = Returns code tr /\
    Forall (platform_event (target e)) tr /\
    match target e with
    | Apple => code = 1 \/ outputs tr = []
    | _ => True
    end.
Proof.
  destruct (main_run e argv) as (code & tr & Hrun & Hp & H).
  exists code, tr. split; [exact Hrun|]. split; [exact Hp|].
  destruct (target e) eqn:Ht; [|exact I..].
  destruct H as [(-> & _) | (-> & pre & body & -> & Hpre & Hbody)];
    [now left | right].
  apply Forall_app in Hp as [_ Hp].
  unfold outputs. rewrite omap_app.
  rewrite (sequence_calls_silent output_view pre) by auto.
  assert (Hnone : Forall (fun _ : string => False) (omap output_view body)).
  { eapply (Forall_omap_view
              (fun ev => note_event program_notes ev /\ platform_event Apple ev));
      [|apply Forall_and; split; assumption].
    intros [| | | |[]| |] s [Hn Ha] [=]; subst. simpl in Hn, Ha. now apply Ha. }
  destruct (omap output_view body); [reflexivity | now inversion Hnone].
Qed.

(** ** The time a song takes *)

Lemma console_tone_needs_linux (e : env) (f d : Z) (t : trace) :
  console_tone e f d t = true -> target e = Linux.
Proof. unfold console_tone. now destruct (target e). Qed.

(** Where the console treats every tone request alike, the waits of a
    run of the sequencer can be read off its steps. *)
Lemma play_sequence_waits (e : env) (tones_wait : bool) (fs ds : list Z)
    (n : nat) (t : trace) :
  (forall f d t, console_tone e f d t = tones_wait) ->
  (n <= length fs)%nat -> (n <= length ds)%nat ->
  exists body,
    play_sequence e fs ds (Z.of_nat n) t =
      Returns tt (t ++ Call_play_sequence fs ds (Z.of_nat n) :: body) /\
    waits body = omap (wait_of_step tones_wait) (steps body) /\
    (tones_wait = true -> outputs body = []).
Proof.
  intros Hc Hfs Hds.
  apply (play_sequence_keeps e fs ds n
           (fun b => waits b = omap (wait_of_step tones_wait) (steps b) /\
                     (tones_wait = true -> outputs b = [])));
    try assumption.
  - split; reflexivity.
  - intros a b [A1 A2] [B1 B2]. unfold waits, steps, outputs in *.
    rewrite !omap_app, A1, B1. split; [reflexivity|].
    intros H. now rewrite A2, B2.
  - intros i d _ _ _. split; reflexivity.
  - split; reflexivity.
  - intros i f d t' body _ Hf0 _ _ Hrun.
    rewrite (play_beep_body e f d t' body (fun _ => Hf0) Hrun), Hc.
    destruct tones_wait.
    + rewrite (console_tone_needs_linux e f d t' (Hc f d t')).
      split; reflexivity.
    + split; [|discriminate]. now destruct (target e).
Qed.

Lemma waits_of_notes (p : Z) (l : list (Z * Z)) :
  omap (wait_of_step true) (intersperse (Pause p) (map raw_step l)) =
  intersperse p (map (fun n => to_useconds (int_mul n.2 1000)) l).
Proof.
  assert (H1 : forall n, wait_of_step true (raw_step n) =
                         Some (to_useconds (int_mul n.2 1000))).
  { intros n. unfold raw_step. now destruct (n.1 =? 0). }
  induction l as [|x [|y l] IH]; [reflexivity| |].
  - cbn [map intersperse omap list_omap]. now rewrite H1.
  - change (intersperse (Pause p) (map raw_step (x :: y :: l)))
      with (raw_step x :: Pause p :: intersperse (Pause p) (map raw_step (y :: l))).
    cbn [omap list_omap]. change (list_omap _ _ ?f ?k) with (omap f k).
    rewrite H1, IH. reflexivity.
Qed.

(** X11: on a Linux console that accepts every tone request a song
    whose first [n] durations are from 0 to 2147483 milliseconds (so
    that [duration * 1000] fits an [int]) keeps its time: the run over
    [n] notes waits once for every note, tone or rest, for the
    duration of that note, with 50 milliseconds between each two
    notes, and it writes nothing to the standard output. *)
Theorem play_sequence_keeps_time (e : env) (fs ds : list Z) (n : nat)
    (t : trace) :
  target e = Linux ->
  (forall t arg, kd_mktone e t arg = 0) ->
  (n <= length fs)%nat ->
  (n <= length ds)%nat ->
  Forall duration_ok (take n ds) ->
  exists body,
    play_sequence e fs ds (Z.of_nat n) t = Returns tt (t ++ body) /\
    waits body = intersperse 50000 (map (fun d => d * 1000) (take n ds)) /\
    outputs body = [].
Proof.
  intros Hl Hk Hfs Hds Hok.
  destruct (play_sequence_waits e true fs ds n t) as (body & Hrun & Hw & Hout);
    [| assumption.. |].
  { intros f d t'. unfold console_tone. rewrite Hl, Hk. reflexivity. }
  destruct (play_sequence_trace e fs ds n t Hfs Hds) as (body' & Hrun' & Hsteps & _).
  rewrite Hrun in Hrun'. injection Hrun' as Hrun'.
  apply app_inv_head in Hrun'. injection Hrun' as <-.
  exists (Call_play_sequence fs ds (Z.of_nat n) :: body).
  split; [exact Hrun|]. split; [|exact (Hout eq_refl)].
  change (waits (Call_play_sequence fs ds (Z.of_nat n) :: body)) with (waits body).
  rewrite Hw, Hsteps, waits_of_notes, zip_with_take.
  rewrite <- (snd_zip (take n fs) (take n ds)) at 2
    by (rewrite !length_take; lia).
  rewrite <- list_fmap_compose. f_equal. apply map_ext_in. intros [f d] Hin.
  simpl. apply usleep_arg_ok.
  apply list_elem_of_In, elem_of_zip_r in Hin.
  rewrite Forall_forall in Hok. now apply Hok.
Qed.

Lemma play_sequence_keeps_time_witness :
  target linux_console = Linux /\
  (forall (t : trace) (arg : Z), kd_mktone linux_console t arg = 0) /\
  (3 <= length [440; 0; 523])%nat /\
  (3 <= length [200; 100; 300])%nat /\
  Forall duration_ok (take 3 [200; 100; 300]) /\
  exists body,
    play_sequence linux_console [440; 0; 523] [200; 100; 300] 3 [] =
      Returns tt body /\
    waits body = [200000; 50000; 100000; 50000; 300000].
Proof.
  assert (Hl : target linux_console = Linux) by reflexivity.
  assert (Hk : forall (t : trace) (arg : Z), kd_mktone linux_console t arg = 0)
    by reflexivity.
  assert (H3 : (3 <= 3)%nat) by lia.
  assert (Hok : Forall duration_ok (take 3 [200; 100; 300]))
    by (repeat (constructor; [unfold duration_ok, INT_MAX; lia|]); constructor).
  split; [exact Hl|]. split; [exact Hk|]. split; [exact H3|].
  split; [exact H3|]. split; [exact Hok|].
  destruct (play_sequence_keeps_time linux_console [440; 0; 523] [200; 100; 300]
              3 [] Hl Hk H3 H3 Hok) as (body & Hrun & Hw & _).
  exists body. split; [exact Hrun | exact Hw].
Defined.

(** X12: where no tone is played by the console (off Linux, or on a
    console that refuses every tone request), a tone takes no time:
    the waits of a run of the sequencer are its rests and its pauses
    and nothing else, so that the notes of a song without rests follow
    each other 50 milliseconds apart whatever their durations. *)
Theorem play_sequence_tones_take_no_time (e : env) (fs ds : list Z) (n : nat)
    (t : trace) :
  (forall f d t, console_tone e f d t = false) ->
  (n <= length fs)%nat ->
  (n <= length ds)%nat ->
  exists body,
    play_sequence e fs ds (Z.of_nat n) t = Returns tt (t ++ body) /\
    waits body = omap (wait_of_step false) (steps body).
Proof.
  intros Hc Hfs Hds.
  destruct (play_sequence_waits e false fs ds n t Hc Hfs Hds)
    as (body & Hrun & Hw & _).
  exists (Call_play_sequence fs ds (Z.of_nat n) :: body).
  split; [exact Hrun | exact Hw].
Qed.

Lemma play_sequence_tones_take_no_time_witness :
  (forall f d t, console_tone linux_no_console f d t = false) /\
  (3 <= length [440; 0; 523])%nat /\
  (3 <= length [200; 100; 300])%nat /\
  exists body,
    play_sequence linux_no_console [440; 0; 523] [200; 100; 300] 3 [] =
      Returns tt body /\
    waits body = [50000; 100000; 50000].
Proof.
  assert (Hc : forall f d t, console_tone linux_no_console f d t = false)
    by reflexivity.
  assert (H3 : (3 <= 3)%nat) by lia.
  split; [exact Hc|]. split; [exact H3|]. split; [exact H3|].
  destruct (play_sequence_tones_take_no_time linux_no_console
              [440; 0; 523] [200; 100; 300] 3 [] Hc H3 H3)
    as (body & Hrun & Hw).
  exists body. split; [exact Hrun|].
  rewrite Hw. cbn in Hrun. injection Hrun as <-. reflexivity.
Defined.

(** X13: where the bell is the only sound left (a platform without
    tone support, or a Linux console that refuses every tone request),
    a run of the sequencer writes one bell for each call of the tone
    emitter and nothing else to the standard output. *)
Theorem play_sequence_rings_bells (e : env) (fs ds : list Z) (n : nat)
    (t : trace) :
  bell_only e ->
  (n <= length fs)%nat ->
  (n <= length ds)%nat ->
  exists body,
    play_sequence e fs ds (Z.of_nat n) t = Returns tt (t ++ body) /\
    outputs body = replicate (length (beep_calls body)) bell.
Proof.
  intros Hb Hfs Hds.
  destruct (play_sequence_keeps e fs ds n
              (fun b => outputs b = replicate (length (beep_calls b)) bell) t)
    as (body & Hrun & HF); try assumption; try reflexivity.
  - intros a b Ha Hb'. unfold outputs, beep_calls in *.
    rewrite !omap_app, length_app, replicate_add, Ha, Hb'. reflexivity.
  - intros i f d t' body _ Hf0 _ _ Hrun.
    rewrite (play_beep_body e f d t' body (fun _ => Hf0) Hrun).
    unfold bell_only, console_tone in *.
    destruct (target e); [contradiction | | reflexivity].
    specialize (Hb (t' ++ [Call_play_beep f d]) (tone_request f)).
    apply Z.eqb_neq in Hb. now rewrite Hb.
  - exists (Call_play_sequence fs ds (Z.of_nat n) :: body).
    split; [exact Hrun | exact HF].
Qed.

Lemma play_sequence_rings_bells_witness :
  bell_only linux_no_console /\
  (3 <= length [440; 0; 523])%nat /\
  (3 <= length [200; 100; 300])%nat /\
  exists body,
    play_sequence linux_no_console [440; 0; 523] [200; 100; 300] 3 [] =
      Returns tt body /\
    outputs body = [bell; bell].
Proof.
  assert (Hb : bell_only linux_no_console) by (intros t arg; cbn; lia).
  assert (H3 : (3 <= 3)%nat) by lia.
  split; [exact Hb|]. split; [exact H3|]. split; [exact H3|].
  destruct (play_sequence_rings_bells linux_no_console
              [440; 0; 523] [200; 100; 300] 3 [] Hb H3 H3)
    as (body & Hrun & Hout).
  exists body. split; [exact Hrun|].
  rewrite Hout. cbn in Hrun. injection Hrun as <-. reflexivity.
Defined.
